(** * invoice_agent: the recurring-expense analyzer and the review page

    A shallow embedding of the algorithmic parts of the front end:
    - [analyzeRecurringExpenses], [isExcluded] and [getExpenseType] of the
      dashboard page;
    - [handleSubmitReview] and [handleSkipReview] of the invoice page;
    together with the pieces of JavaScript they stand on (strings, ordinary
    objects used as dictionaries, [Array.prototype.sort], [Date] and
    date-fns' [getDate] / [addMonths]).  The VAT Resolver and the Resolution
    Merger belong to the back end, which is not among the sources; [VatModel]
    follows their specification.

    Conventions of the embedding:
    - a JS string is a [string]; [toLowerCase] folds the ASCII letters and
      [trim] strips the ASCII white space and line terminators;
    - a JS number that holds money is a rational [Q] (exact arithmetic), a
      JS number that holds a count, a day or a time value is a [Z];
    - a [Date] is its time value in milliseconds on the local time line
      (a fixed offset from UTC, no daylight saving); an Invalid Date is not
      represented, [TimeClip] is not applied;
    - a thrown exception is the [Throws] outcome. *)

From Stdlib Require Import ZArith QArith Qround Qabs List String Ascii Bool Lia Lqa.
From Stdlib Require Import Sorted Permutation.
Import ListNotations.

Local Open Scope Z_scope.

(* ====================================================================== *)
(** * Part I. Definitions *)
(* ====================================================================== *)

(** ** Outcome of a call that may throw *)

Inductive outcome (A : Type) : Type :=
| Returns (a : A)
| Throws (e : string).
Arguments Returns {A} a.
Arguments Throws {A} e.

Definition bindO {A B : Type} (m : outcome A) (k : A -> outcome B) : outcome B :=
  match m with
  | Returns a => k a
  | Throws e => Throws e
  end.

(** [forEach] with a body that threads the mutated object and may throw. *)
Fixpoint forEachO {A St : Type} (body : St -> A -> outcome St) (l : list A) (s : St)
  : outcome St :=
  match l with
  | [] => Returns s
  | x :: l' => bindO (body s x) (forEachO body l')
  end.

(** ** Strings *)

Module JsString.

Definition lowerChar (c : ascii) : ascii :=
  let n := nat_of_ascii c in
  if (65 <=? n)%nat && (n <=? 90)%nat then ascii_of_nat (n + 32) else c.

(** [String.prototype.toLowerCase] (ASCII letters). *)
Fixpoint toLowerCase (s : string) : string :=
  match s with
  | EmptyString => EmptyString
  | String c s' => String (lowerChar c) (toLowerCase s')
  end.

(** White space and line terminators: TAB, LF, VT, FF, CR, SP. *)
Definition isWhiteSpace (c : ascii) : bool :=
  let n := nat_of_ascii c in
  ((9 <=? n)%nat && (n <=? 13)%nat) || (n =? 32)%nat.

Definition isEmpty (s : string) : bool :=
  match s with EmptyString => true | String _ _ => false end.

Fixpoint trimStart (s : string) : string :=
  match s with
  | EmptyString => EmptyString
  | String c s' => if isWhiteSpace c then trimStart s' else s
  end.

Fixpoint trimEnd (s : string) : string :=
  match s with
  | EmptyString => EmptyString
  | String c s' =>
      let r := trimEnd s' in
      if isWhiteSpace c && isEmpty r then EmptyString else String c r
  end.

(** [String.prototype.trim]. *)
Definition trim (s : string) : string := trimEnd (trimStart s).

(** [text.includes(k)]: [k] occurs in [text] at some position. *)
Fixpoint includes (text k : string) : bool :=
  String.prefix k text
  || match text with
     | EmptyString => false
     | String _ text' => includes text' k
     end.

(** A keyword that neither starts nor ends with white space: [trim] of
    the text cannot cut into an occurrence of it. *)
Fixpoint endsClean (k : string) : bool :=
  match k with
  | EmptyString => true
  | String a k' => if isEmpty k' then negb (isWhiteSpace a) else endsClean k'
  end.

Definition cleanEnds (k : string) : bool :=
  match k with
  | EmptyString => false
  | String a _ => negb (isWhiteSpace a) && endsClean k
  end.

(** [\w] of a regular expression. *)
Definition isWordChar (c : ascii) : bool :=
  let n := nat_of_ascii c in
  ((48 <=? n)%nat && (n <=? 57)%nat)
  || ((65 <=? n)%nat && (n <=? 90)%nat)
  || ((97 <=? n)%nat && (n <=? 122)%nat)
  || (n =? 95)%nat.

(** The decimal digits of a string, most significant first. *)
Definition digitOf (c : ascii) : option N :=
  let n := N_of_ascii c in
  if (48 <=? n)%N && (n <=? 57)%N then Some (n - 48)%N else None.

Fixpoint parseDigits (acc : N) (s : string) : option N :=
  match s with
  | EmptyString => Some acc
  | String c s' =>
      match digitOf c with
      | Some d => parseDigits (acc * 10 + d)%N s'
      | None => None
      end
  end.

End JsString.

(** ** Ordinary objects used as dictionaries

    An object is the list of its own properties in creation order.  Its
    prototype is [Object.prototype].  [Object.keys] and [Object.entries]
    list the array-index keys first, in ascending numeric order, and then the
    other keys in creation order. *)

Module JsObject.

Definition obj (V : Type) : Type := list (string * V).

Fixpoint getOwn {V} (o : obj V) (k : string) : option V :=
  match o with
  | [] => None
  | (k', v) :: o' => if String.eqb k' k then Some v else getOwn o' k
  end.

Definition hasOwn {V} (o : obj V) (k : string) : bool :=
  match getOwn o k with Some _ => true | None => false end.

(** Writing the own property [k]: in place when it exists, else created
    last. *)
Fixpoint setOwn {V} (o : obj V) (k : string) (v : V) : obj V :=
  match o with
  | [] => [(k, v)]
  | (k', v') :: o' =>
      if String.eqb k' k then (k', v) :: o' else (k', v') :: setOwn o' k v
  end.

(** The lower-case names that [Object.prototype] answers to: reading them
    from an object that has no such own property gives the inherited
    (truthy, non-array) value. *)
Definition inherited (k : string) : bool :=
  String.eqb k "constructor" || String.eqb k "__proto__".

(** An array index is a canonical numeric string below 2^32 - 1. *)
Definition arrayIndex (k : string) : option N :=
  match k with
  | EmptyString => None
  | String c k' =>
      if Ascii.eqb c "0"
      then (if JsString.isEmpty k' then Some 0%N else None)
      else match JsString.parseDigits 0%N k with
           | Some n => if (n <? 4294967295)%N then Some n else None
           | None => None
           end
  end.

Fixpoint insertIndexed {V} (i : N) (e : string * V) (l : list (N * (string * V)))
  : list (N * (string * V)) :=
  match l with
  | [] => [(i, e)]
  | (j, e') :: l' =>
      if (i <? j)%N then (i, e) :: (j, e') :: l'
      else (j, e') :: insertIndexed i e l'
  end.

Fixpoint indexedEntries {V} (o : obj V) : list (N * (string * V)) :=
  match o with
  | [] => []
  | (k, v) :: o' =>
      match arrayIndex k with
      | Some i => insertIndexed i (k, v) (indexedEntries o')
      | None => indexedEntries o'
      end
  end.

Definition namedEntries {V} (o : obj V) : list (string * V) :=
  filter (fun e => match arrayIndex (fst e) with Some _ => false | None => true end) o.

(** [Object.entries(o)]. *)
Definition entries {V} (o : obj V) : list (string * V) :=
  map snd (indexedEntries o) ++ namedEntries o.

(** [Object.keys(o)]. *)
Definition keys {V} (o : obj V) : list string := map fst (entries o).

End JsObject.

(** ** [Array.prototype.sort]

    The sort is stable; [cmp a b > 0] puts [a] after [b].  The comparators
    of this program are differences of integers, hence consistent. *)

Module JsArray.

Section Sort.
Context {A : Type} (cmp : A -> A -> Z).

Fixpoint insertSorted (x : A) (l : list A) : list A :=
  match l with
  | [] => [x]
  | y :: l' => if cmp x y <=? 0 then x :: y :: l' else y :: insertSorted x l'
  end.

Fixpoint sort (l : list A) : list A :=
  match l with
  | [] => []
  | x :: l' => insertSorted x (sort l')
  end.
End Sort.

(** [arr.some(p)]. *)
Definition some {A} (p : A -> bool) (l : list A) : bool := existsb p l.

(** The order that a comparator subtracting integer keys sorts by. *)
Definition keyLe {A} (key : A -> Z) (a b : A) : Prop := key a <= key b.

End JsArray.

(** ** [Date] and date-fns

    Time values are milliseconds on the local time line.  The calendar is
    the proleptic Gregorian one; months are 1..12 in [daysFromCivil] and
    [civilFromDays], and 0-based in the JS entry points. *)

Module JsDate.

Definition msPerDay : Z := 86400000.

Definition Day (t : Z) : Z := t / msPerDay.
Definition TimeWithinDay (t : Z) : Z := t mod msPerDay.
Definition MakeDate (day time : Z) : Z := day * msPerDay + time.

(** The calendar computes with years that start on 1 March, in eras of 400
    years (146097 days): [yearStart] is the day of the era on which year
    [yoe] of the era starts, [monthStart] the day of the year on which month
    [mp] (0 = March) starts, [yearOfEra] the year of a day of the era. *)
Definition yearStart (yoe : Z) : Z := yoe * 365 + yoe / 4 - yoe / 100.

Definition monthStart (mp : Z) : Z := (153 * mp + 2) / 5.

Definition yearOfEra (doe : Z) : Z :=
  (doe - doe / 1460 + doe / 36524 - doe / 146096) / 365.

Definition monthOf (mp : Z) : Z := if mp <? 10 then mp + 3 else mp - 9.

(** Day number (0 = 1970-01-01) of a calendar date. *)
Definition daysFromCivil (y m d : Z) : Z :=
  let y' := if m <=? 2 then y - 1 else y in
  let era := y' / 400 in
  let yoe := y' - era * 400 in
  let mp := (m + 9) mod 12 in
  let doy := monthStart mp + d - 1 in
  let doe := yearStart yoe + doy in
  era * 146097 + doe - 719468.

(** Calendar date (year, month 1..12, day 1..31) of a day number. *)
Definition civilFromDays (z : Z) : Z * Z * Z :=
  let z' := z + 719468 in
  let era := z' / 146097 in
  let doe := z' - era * 146097 in
  let yoe := yearOfEra doe in
  let doy := doe - yearStart yoe in
  let mp := (5 * doy + 2) / 153 in
  let d := doy - monthStart mp + 1 in
  let m := monthOf mp in
  let y := yoe + era * 400 in
  (if m <=? 2 then y + 1 else y, m, d).

Definition getFullYear (t : Z) : Z := fst (fst (civilFromDays (Day t))).
Definition getMonth (t : Z) : Z := snd (fst (civilFromDays (Day t))) - 1.
(** [Date.prototype.getDate], which date-fns' [getDate] returns. *)
Definition getDate (t : Z) : Z := snd (civilFromDays (Day t)).

(** [MakeDay(year, month, date)]: the month may lie outside 0..11 and the
    date outside the month; both carry over. *)
Definition MakeDay (year month date : Z) : Z :=
  let ym := year + month / 12 in
  let mn := month mod 12 in
  daysFromCivil ym (mn + 1) 1 + date - 1.

(** [new Date(year, month, date)]: local midnight; a year in 0..99 means
    1900 + year. *)
Definition newDate (year month date : Z) : Z :=
  let yr := if (0 <=? year) && (year <=? 99) then 1900 + year else year in
  MakeDate (MakeDay yr month date) 0.

(** [d.setMonth(month, date)] and [d.setFullYear(year, month, date)]. *)
Definition setMonth (t month date : Z) : Z :=
  MakeDate (MakeDay (getFullYear t) month date) (TimeWithinDay t).

Definition setFullYear (t year month date : Z) : Z :=
  MakeDate (MakeDay year month date) (TimeWithinDay t).

(** date-fns [addMonths(date, amount)]: the same day of the target month,
    or its last day when the month is shorter. *)
Definition addMonths (t amount : Z) : Z :=
  if amount =? 0 then t
  else
    let dayOfMonth := getDate t in
    let endOfDesiredMonth := setMonth t (getMonth t + amount + 1) 0 in
    let daysInMonth := getDate endOfDesiredMonth in
    if dayOfMonth >=? daysInMonth then endOfDesiredMonth
    else setFullYear t (getFullYear endOfDesiredMonth)
                     (getMonth endOfDesiredMonth) dayOfMonth.

Definition isLeapYear (y : Z) : bool :=
  ((y mod 4 =? 0) && negb (y mod 100 =? 0)) || (y mod 400 =? 0).

(** Length of a month (1..12) of a year. *)
Definition daysInMonth (y m : Z) : Z :=
  if m =? 2 then (if isLeapYear y then 29 else 28)
  else if (m =? 4) || (m =? 6) || (m =? 9) || (m =? 11) then 30
  else 31.

(** The month (year, month 1..12) after a month. *)
Definition nextMonth (y m : Z) : Z * Z :=
  if m =? 12 then (y + 1, 1) else (y, m + 1).

(** Months counted from year 0: the month of a time value. *)
Definition monthIndex (t : Z) : Z := getFullYear t * 12 + getMonth t.

(** The time value of an ISO calendar date [YYYY-MM-DD] taken at local
    midnight.  It is the reading of date strings used in the examples;
    the analyzer itself is stated for any reading ([parseDate] below). *)
Definition isoLocalMidnight (s : string) : Z :=
  match JsString.parseDigits 0%N (substring 0 4 s),
        JsString.parseDigits 0%N (substring 5 2 s),
        JsString.parseDigits 0%N (substring 8 2 s) with
  | Some y, Some m, Some d =>
      MakeDate (daysFromCivil (Z.of_N y) (Z.of_N m) (Z.of_N d)) 0
  | _, _, _ => 0
  end.

(** Local midnight of day [day] of the month of [now], when that month
    has such a day. *)
Definition occurrenceThisMonth (now day : Z) : option Z :=
  let '(y, m, _) := civilFromDays (Day now) in
  if (1 <=? day) && (day <=? daysInMonth y m)
  then Some (MakeDate (daysFromCivil y m day) 0)
  else None.

(** The number of days of the month after the month of [now]. *)
Definition daysInNextMonth (now : Z) : Z :=
  let '(y, m, _) := civilFromDays (Day now) in
  daysInMonth (fst (nextMonth y m)) (snd (nextMonth y m)).

(** The number of days of year [yoe] of the era (1 March to the end of
    February). *)
Definition yearLength (yoe : Z) : Z :=
  if yoe =? 399 then 366 else yearStart (yoe + 1) - yearStart yoe.

End JsDate.

(** ** The dashboard page: recurring-expense analyzer *)

(** [interface Invoice]; a field that may be null, undefined or absent is
    an [option] (the date is a string by its type, and the analyzer still
    tests it for emptiness, so a null date is allowed for as well). *)
Module Invoice.
Inductive Status := StatusOk | NeedsReview.

Record t := {
  id : Z;
  vendor : option string;
  amount : option Q;
  currency : option string;
  date : option string;
  status : Status;
  is_paid : option bool;
  category : option string;
  created_at : option string
}.
End Invoice.

(** [interface RecurringExpense]; [nextExpected] is the time value of the
    [Date]. *)
Module RecurringExpense.
Record t := {
  vendor : string;
  avgAmount : Q;
  dayOfMonth : Z;
  frequency : Z;
  lastDate : string;
  category : option string;
  nextExpected : Z;
  type : option string
}.
End RecurringExpense.

Module Dashboard.
Import JsString.

Local Open Scope string_scope.
Local Open Scope Z_scope.

(** Known types for labeling only (not for detection). *)
Definition UTILITY_KEYWORDS : list string :=
  ["dewa"; "sewa"; "fewa"; "addc"; "electricity"; "water"; "power"].
Definition TELECOM_KEYWORDS : list string := ["etisalat"; "virgin mobile"].
Definition SUBSCRIPTION_KEYWORDS : list string :=
  ["microsoft 365"; "microsoft"; "google workspace"; "adobe"; "slack"; "zoom";
   "aws"; "azure"; "dropbox"; "notion"; "figma"; "github"; "atlassian"; "jira";
   "hubspot"; "salesforce"; "spotify"; "netflix"; "office 365"].
Definition INSURANCE_KEYWORDS : list string := ["insurance"; "takaful"].
Definition RENT_KEYWORDS : list string := ["rent"; "lease"; "tenancy"].

(** Excluded vendors: government and one-time payments. *)
Definition EXCLUDE_KEYWORDS : list string :=
  ["gdrfa"; "amer"; "tas-heel"; "tasheel"; "dha"; "rta"; "traffic"; "fine";
   "penalty"; "visa"; "emirates id"; "license"; "registration"; "government";
   "ministry"; "municipality"; "court"; "legal"].

(** Truthiness of a nullable string and of a nullable number. *)
Definition truthyString (v : option string) : bool :=
  match v with Some s => negb (isEmpty s) | None => false end.

Definition truthyNumber (v : option Q) : bool :=
  match v with Some q => negb (Qeq_bool q 0) | None => false end.

(** [v || ""]. *)
Definition orEmpty (v : option string) : string :=
  match v with Some s => s | None => "" end.

Definition isLetter (lower : ascii) (c : ascii) : bool :=
  Ascii.eqb (lowerChar c) lower.

(** [/\bdu\s/i.test(text)]. *)
Definition startsDuSpace (s : string) : bool :=
  match s with
  | String c1 (String c2 (String c3 _)) =>
      isLetter "d" c1 && isLetter "u" c2 && isWhiteSpace c3
  | _ => false
  end.

Fixpoint testDuSpace (prevIsWord : bool) (s : string) : bool :=
  match s with
  | EmptyString => false
  | String c s' =>
      (negb prevIsWord && startsDuSpace s) || testDuSpace (isWordChar c) s'
  end.

(** [/\sdu\b/i.test(text)]. *)
Definition startsSpaceDu (s : string) : bool :=
  match s with
  | String c1 (String c2 (String c3 rest)) =>
      isWhiteSpace c1 && isLetter "d" c2 && isLetter "u" c3
      && match rest with
         | EmptyString => true
         | String c4 _ => negb (isWordChar c4)
         end
  | _ => false
  end.

Fixpoint testSpaceDu (s : string) : bool :=
  match s with
  | EmptyString => false
  | String _ s' => startsSpaceDu s || testSpaceDu s'
  end.

Definition getExpenseType (vendor : string) (category : option string)
  : option string :=
  let text :=
    toLowerCase (vendor ++ " " ++ orEmpty category)%string in
  if JsArray.some (fun k => includes text k) UTILITY_KEYWORDS then Some "utility"
  else if JsArray.some (fun k => includes text k) TELECOM_KEYWORDS
          || testDuSpace false text || testSpaceDu text || String.eqb text "du"
  then Some "telecom"
  else if JsArray.some (fun k => includes text k) SUBSCRIPTION_KEYWORDS
  then Some "subscription"
  else if JsArray.some (fun k => includes text k) INSURANCE_KEYWORDS
  then Some "insurance"
  else if JsArray.some (fun k => includes text k) RENT_KEYWORDS then Some "rent"
  else None.

Definition isExcluded (vendor : string) : bool :=
  let text := toLowerCase vendor in
  JsArray.some (fun k => includes text k) EXCLUDE_KEYWORDS.

(** [Math.ceil(a / b)] for integers [a] and [b > 0]. *)
Definition ceilDiv (a b : Z) : Z := - ((- a) / b).

(** [dayGroups]: an object keyed by day numbers.  Day numbers are array
    indices, so the keys are listed in ascending order. *)
Definition DayGroups : Type := list (Z * list Invoice.t).

Fixpoint getDay (g : DayGroups) (k : Z) : list Invoice.t :=
  match g with
  | [] => []
  | (k', v) :: g' => if k' =? k then v else getDay g' k
  end.

Fixpoint setDay (g : DayGroups) (k : Z) (v : list Invoice.t) : DayGroups :=
  match g with
  | [] => [(k, v)]
  | (k', v') :: g' =>
      if k <? k' then (k, v) :: g
      else if k =? k' then (k, v) :: g'
      else (k', v') :: setDay g' k v
  end.

Section Analyzer.
(** [parseDate s] is the time value of [new Date(s)]. *)
Variable parseDate : string -> Z.
(** The labelling function; the page uses [getExpenseType]. *)
Variable classify : string -> option string -> option string.
(** [new Date()] at the call. *)
Variable now : Z.

Definition timeOf (inv : Invoice.t) : Z :=
  parseDate (orEmpty (Invoice.date inv)).

Definition byDate (a b : Invoice.t) : Z := timeOf a - timeOf b.

(** The guard of the first loop: [!inv.vendor || !inv.date || !inv.amount]
    skips the record. *)
Definition isUsable (inv : Invoice.t) : bool :=
  truthyString (Invoice.vendor inv)
  && truthyString (Invoice.date inv)
  && truthyNumber (Invoice.amount inv).

Definition vendorKey (name : string) : string := trim (toLowerCase name).

Definition collect (vendorInvoices : JsObject.obj (list Invoice.t))
           (inv : Invoice.t) : outcome (JsObject.obj (list Invoice.t)) :=
  if negb (isUsable inv) then Returns vendorInvoices
  else
    let vendor := vendorKey (orEmpty (Invoice.vendor inv)) in
    match JsObject.getOwn vendorInvoices vendor with
    | Some invs => Returns (JsObject.setOwn vendorInvoices vendor (invs ++ [inv])%list)
    | None =>
        if JsObject.inherited vendor
        then Throws "TypeError: vendorInvoices[vendor].push is not a function"
        else Returns (JsObject.setOwn vendorInvoices vendor [inv])
    end.

(** STEP 1: group invoices by day of month (+-1 day tolerance). *)
Definition addToDayGroups (dayGroups : DayGroups) (inv : Invoice.t) : DayGroups :=
  let day := JsDate.getDate (timeOf inv) in
  match find (fun existingDay => Z.abs (existingDay - day) <=? 1)
             (map fst dayGroups) with
  | Some matchedDay => setDay dayGroups matchedDay (getDay dayGroups matchedDay ++ [inv])%list
  | None => setDay dayGroups day [inv]
  end.

Definition groupByDay (sorted : list Invoice.t) : DayGroups :=
  fold_left addToDayGroups sorted [].

(** STEP 2: the groups with at least 2 invoices, largest first. *)
Definition validGroups (dayGroups : DayGroups) : DayGroups :=
  JsArray.sort
    (fun a b => Z.of_nat (List.length (snd b)) - Z.of_nat (List.length (snd a)))
    (filter (fun e => 2 <=? Z.of_nat (List.length (snd e))) dayGroups).

(** STEP 3: every invoice must be about one month (25-38 days) after the
    previous one. *)
Definition daysDiff (prev curr : Invoice.t) : Z :=
  ceilDiv (timeOf curr - timeOf prev) JsDate.msPerDay.

Fixpoint isMonthlyConsistent (groupSorted : list Invoice.t) : bool :=
  match groupSorted with
  | prev :: rest =>
      match rest with
      | curr :: _ =>
          if (daysDiff prev curr <? 25) || (daysDiff prev curr >? 38) then false
          else isMonthlyConsistent rest
      | [] => true
      end
  | [] => true
  end.

(** [inv.amount || 0]. *)
Definition amountOrZero (inv : Invoice.t) : Q :=
  match Invoice.amount inv with
  | Some q => if Qeq_bool q 0 then 0%Q else q
  | None => 0%Q
  end.

Definition average (amounts : list Q) : Q :=
  (fold_left Qplus amounts 0 / inject_Z (Z.of_nat (List.length amounts)))%Q.

Definition nextExpectedDate (avgDay : Z) : Z :=
  let nextExpected :=
    JsDate.newDate (JsDate.getFullYear now) (JsDate.getMonth now) avgDay in
  if nextExpected <=? now then JsDate.addMonths nextExpected 1
  else nextExpected.

(** The cluster the analysis keeps for a vendor: its day and its
    invoices in date order, when some day group has 2 invoices. *)
Definition selectedGroup (invs : list Invoice.t) : option (Z * list Invoice.t) :=
  let sorted := JsArray.sort byDate invs in
  match validGroups (groupByDay sorted) with
  | [] => None
  | (avgDay, group) :: _ => Some (avgDay, JsArray.sort byDate group)
  end.

(** The body of the loop over [Object.entries(vendorInvoices)]: [None]
    when it returns early, else the pushed element. *)
Definition analyzeVendor (entry : string * list Invoice.t)
  : option RecurringExpense.t :=
  let '(vendor, invs) := entry in
  if Z.of_nat (List.length invs) <? 2 then None
  else
    let sorted := JsArray.sort byDate invs in
    let displayVendor :=
      match sorted with
      | first :: _ =>
          if truthyString (Invoice.vendor first)
          then orEmpty (Invoice.vendor first) else vendor
      | [] => vendor
      end in
    if isExcluded displayVendor then None
    else
      match validGroups (groupByDay sorted) with
      | [] => None
      | (avgDay, group) :: _ =>
          let groupSorted := JsArray.sort byDate group in
          if negb (isMonthlyConsistent groupSorted) then None
          else
            let amounts := map amountOrZero groupSorted in
            let first := hd_error groupSorted in
            let firstCategory :=
              match first with Some inv => Invoice.category inv | None => None end in
            Some {|
              RecurringExpense.vendor := displayVendor;
              RecurringExpense.avgAmount := average amounts;
              RecurringExpense.dayOfMonth := avgDay;
              RecurringExpense.frequency := Z.of_nat (List.length groupSorted);
              RecurringExpense.lastDate :=
                match last (map Some groupSorted) None with
                | Some inv => orEmpty (Invoice.date inv)
                | None => ""
                end;
              RecurringExpense.category :=
                if truthyString firstCategory then firstCategory else None;
              RecurringExpense.nextExpected := nextExpectedDate avgDay;
              RecurringExpense.type := classify displayVendor firstCategory
            |}
      end.

Definition byNextExpected (a b : RecurringExpense.t) : Z :=
  RecurringExpense.nextExpected a - RecurringExpense.nextExpected b.

Definition pushSome {A} (recurring : list A) (r : option A) : list A :=
  match r with Some x => (recurring ++ [x])%list | None => recurring end.

Definition analyzeWith (invoices : list Invoice.t)
  : outcome (list RecurringExpense.t) :=
  bindO (forEachO collect invoices [])
        (fun vendorInvoices =>
           let recurring :=
             fold_left (fun acc entry => pushSome acc (analyzeVendor entry))
                       (JsObject.entries vendorInvoices) [] in
           Returns (JsArray.sort byNextExpected recurring)).

End Analyzer.

(** [analyzeRecurringExpenses(invoices)], run at time [now] with dates
    read by [parseDate]. *)
Definition analyzeRecurringExpenses (parseDate : string -> Z) (now : Z)
           (invoices : list Invoice.t) : outcome (list RecurringExpense.t) :=
  analyzeWith parseDate getExpenseType now invoices.

(** *** Vocabulary of the properties *)

(** The records of one vendor, in input order: the usable records whose
    normalized vendor name is [key]. *)
Definition recordsOf (key : string) (invoices : list Invoice.t) : list Invoice.t :=
  filter (fun inv =>
            isUsable inv && String.eqb (vendorKey (orEmpty (Invoice.vendor inv))) key)
         invoices.

(** What the object holds under a key after the loop: the records filed
    before it, followed by the vendor's records in input order. *)
Definition filed (before : option (list Invoice.t)) (records : list Invoice.t)
  : option (list Invoice.t) :=
  match before with
  | Some l => Some (l ++ records)%list
  | None => match records with [] => None | _ :: _ => Some records end
  end.

(** Some adjacent pair of the date-ordered cluster is less than 25 or
    more than 38 days apart. *)
Definition hasGapOutOfRange (parseDate : string -> Z) (group : list Invoice.t) : Prop :=
  exists i prev curr,
    nth_error group i = Some prev /\ nth_error group (S i) = Some curr
    /\ (daysDiff parseDate prev curr < 25 \/ 38 < daysDiff parseDate prev curr).



(** A candidate with its type label blanked. *)
Definition withoutType (c : RecurringExpense.t) : RecurringExpense.t :=
  {| RecurringExpense.vendor := RecurringExpense.vendor c;
     RecurringExpense.avgAmount := RecurringExpense.avgAmount c;
     RecurringExpense.dayOfMonth := RecurringExpense.dayOfMonth c;
     RecurringExpense.frequency := RecurringExpense.frequency c;
     RecurringExpense.lastDate := RecurringExpense.lastDate c;
     RecurringExpense.category := RecurringExpense.category c;
     RecurringExpense.nextExpected := RecurringExpense.nextExpected c;
     RecurringExpense.type := None |}.

Definition mapO {A B} (f : A -> B) (m : outcome A) : outcome B :=
  match m with Returns a => Returns (f a) | Throws e => Throws e end.

(** A complete record: a non-empty vendor, a non-empty date and a
    non-null, non-zero amount. *)
Definition isComplete (inv : Invoice.t) : bool :=
  match Invoice.vendor inv, Invoice.date inv, Invoice.amount inv with
  | Some v, Some d, Some a =>
      negb (String.eqb v "") && negb (String.eqb d "") && negb (Qeq_bool a 0)
  | _, _, _ => false
  end.

(** *** Sample record sets *)

Definition mkInvoice (id : Z) (vendor : string) (amount : Q) (date : string)
  : Invoice.t :=
  {| Invoice.id := id;
     Invoice.vendor := Some vendor;
     Invoice.amount := Some amount;
     Invoice.currency := Some "AED";
     Invoice.date := Some date;
     Invoice.status := Invoice.StatusOk;
     Invoice.is_paid := None;
     Invoice.category := None;
     Invoice.created_at := None |}.

(** 10 April 2024, 09:00. *)
Definition sampleNow : Z := JsDate.isoLocalMidnight "2024-04-10" + 32400000.

(** One vendor charged on the 1st of three consecutive months. *)
Definition threeMonths : list Invoice.t :=
  [mkInvoice 1 "DEWA" 100 "2024-01-01";
   mkInvoice 2 "Dewa " 200 "2024-02-01";
   mkInvoice 3 "dewa" 300 "2024-03-01"].

(** A monthly utility, a monthly vendor with an excluded name, a vendor
    whose two same-day records skip a month, a vendor seen once, and
    records without amount or vendor. *)
Definition mixedRecords : list Invoice.t :=
  [mkInvoice 1 "DEWA" 100 "2024-01-01";
   mkInvoice 2 "Visa Centre" 500 "2024-01-05";
   mkInvoice 3 "Acme" 70 "2024-01-15";
   mkInvoice 4 "Dewa " 200 "2024-02-01";
   mkInvoice 5 "VISA centre" 500 "2024-02-05";
   mkInvoice 6 "Solo" 10 "2024-02-20";
   mkInvoice 7 "dewa" 300 "2024-03-01";
   mkInvoice 8 "visa centre" 500 "2024-03-05";
   mkInvoice 9 "acme" 70 "2024-03-15";
   mkInvoice 10 "Etisalat" 0 "2024-03-20";
   mkInvoice 11 "" 40 "2024-03-21"].

Definition dewaCandidate : RecurringExpense.t :=
  {| RecurringExpense.vendor := "DEWA";
     RecurringExpense.avgAmount := 600 # 3;
     RecurringExpense.dayOfMonth := 1;
     RecurringExpense.frequency := 3;
     RecurringExpense.lastDate := "2024-03-01";
     RecurringExpense.category := None;
     RecurringExpense.nextExpected := 1714521600000;
     RecurringExpense.type := Some "utility" |}.

End Dashboard.

(** ** The invoice page: submitting review answers *)

Module ReviewPage.
Import JsString.

Local Open Scope string_scope.

(** The values an answer or a record field holds. *)
Inductive JsValue :=
| JsUndefined
| JsNull
| JsBool (b : bool)
| JsNumber (q : Q)
| JsText (s : string).

Definition truthy (v : JsValue) : bool :=
  match v with
  | JsUndefined | JsNull => false
  | JsBool b => b
  | JsNumber q => negb (Qeq_bool q 0)
  | JsText s => negb (isEmpty s)
  end.

(** [value !== "" && value !== null && value !== undefined]. *)
Definition isFilled (value : JsValue) : bool :=
  match value with
  | JsUndefined | JsNull => false
  | JsText s => negb (isEmpty s)
  | JsBool _ | JsNumber _ => true
  end.

(** The property names of [Object.prototype], which [in] also finds. *)
Definition OBJECT_PROTOTYPE_KEYS : list string :=
  ["constructor"; "__defineGetter__"; "__defineSetter__"; "hasOwnProperty";
   "__lookupGetter__"; "__lookupSetter__"; "isPrototypeOf";
   "propertyIsEnumerable"; "toString"; "valueOf"; "__proto__";
   "toLocaleString"].

(** [k in o]. *)
Definition hasProperty (o : JsObject.obj JsValue) (k : string) : bool :=
  JsObject.hasOwn o k || existsb (String.eqb k) OBJECT_PROTOTYPE_KEYS.

(** [o[k] = v] for a primitive [v]: the [__proto__] setter ignores it,
    any other key becomes an own property. *)
Definition assign (o : JsObject.obj JsValue) (k : string) (v : JsValue)
  : JsObject.obj JsValue :=
  if String.eqb k "__proto__" then o else JsObject.setOwn o k v.

(** The part of the loaded invoice that the handler reads. *)
Record PageInvoice := { amount : JsValue }.

(** What a click does: the destructive toast, or the POST to
    [/invoices/:id/resolve-review] with its [answers] body. *)
Inductive Effect :=
| ToastNoAnswers
| PostResolveReview (answers : JsObject.obj JsValue).

(** Skip null, undefined, and empty string. *)
Definition fillStep (filledAnswers : JsObject.obj JsValue)
           (entry : string * JsValue) : JsObject.obj JsValue :=
  let '(key, value) := entry in
  if isFilled value then assign filledAnswers key value else filledAnswers.

Definition fillAnswers (answers : JsObject.obj JsValue) : JsObject.obj JsValue :=
  fold_left fillStep (JsObject.entries answers) [].

(** If vat_inclusive is being sent, include amount for VAT calculation. *)
Definition includeAmount (filledAnswers : JsObject.obj JsValue)
           (invoice : PageInvoice) : JsObject.obj JsValue :=
  if hasProperty filledAnswers "vat_inclusive" && truthy (amount invoice)
  then assign filledAnswers "amount" (amount invoice)
  else filledAnswers.

Definition handleSubmitReview (answers : JsObject.obj JsValue)
           (invoice : PageInvoice) : Effect :=
  let filledAnswers := includeAmount (fillAnswers answers) invoice in
  if (List.length (JsObject.keys filledAnswers) =? 0)%nat then ToastNoAnswers
  else PostResolveReview filledAnswers.

(** "Approve as-is". *)
Definition handleSkipReview : Effect := PostResolveReview [].

(** A page state used in the examples: one blank answer, the VAT choice,
    one null answer, on an invoice of 1000. *)
Definition sampleAnswers : JsObject.obj JsValue :=
  [("vendor", JsText ""); ("vat_inclusive", JsBool true); ("notes", JsNull)].

Definition sampleInvoice : PageInvoice := {| amount := JsNumber 1000 |}.

Definition sampleBody : JsObject.obj JsValue :=
  [("vat_inclusive", JsBool true); ("amount", JsNumber 1000)].

End ReviewPage.

(** ** The VAT Resolver and the Resolution Merger *)

Module VatModel.

Local Open Scope string_scope.
Local Open Scope Q_scope.

(** Modelled from the spec: the configured VAT rate, default 0.05 (the
    back end that holds the VAT Resolver, the Validator and the
    Resolution Merger is not among the sources). *)
Definition defaultRate : Q := 5 # 100.

(** Modelled from the spec: monetary rounding, half-up to 2 decimal
    places. *)
Definition round2 (x : Q) : Q := inject_Z (Qfloor (x * 100 + (1 # 2))) / 100.

(** Modelled from the spec: the rounding tolerance of 0.01. *)
Definition within (x y : Q) : bool := Qle_bool (Qabs (x - y)) (1 # 100).

Inductive Status := StatusOk | NeedsReview.

Inductive InputType := InText | InNumber | InDate | InSelect | InConfirmOrCorrect.

(** Modelled from the spec: a review Question (section 3). *)
Record Question := {
  field_name : string;
  input_type : InputType;
  options : list (string * string)
}.

(** Modelled from the spec: the fields of a Document Record that the
    VAT Resolver, the Validator and the Resolution Merger read or write
    (section 3). *)
Record DocumentRecord := {
  vendor : option string;
  date : option string;
  amount : option Q;
  tax_amount : option Q;
  category : option string;
  vat_inclusive : option bool;
  status : Status;
  review_reason : option string;
  review_questions : list Question
}.

Definition withVat (r : DocumentRecord) (a : option Q) (t : option Q)
           (v : option bool) : DocumentRecord :=
  {| vendor := vendor r; date := date r; amount := a; tax_amount := t;
     category := category r; vat_inclusive := v; status := status r;
     review_reason := review_reason r; review_questions := review_questions r |}.

(** Modelled from the spec: [tax_amount = round(amount x rate, 2)] for a
    net amount, and [net = round(amount / (1 + rate), 2)] for a gross
    one (section 4.2, rules 2 and 3). *)
Definition taxOfNet (rate a : Q) : Q := round2 (a * rate).
Definition netOfGross (rate g : Q) : Q := round2 (g / (1 + rate)).

Definition orElse (v : option bool) (d : bool) : option bool :=
  match v with Some b => Some b | None => Some d end.

(** Modelled from the spec: the VAT Resolver (section 4.2), its rules
    read in the order given.  Rule 1: a tax amount that agrees with the
    amount under either reading is left as it is, and fixes the flag if
    the flag is null.  Rule 2: no tax amount and the flag false: the tax
    is computed from the net amount.  Rule 3: the flag true: the amount is
    gross; the net amount is computed, the tax is the difference, and the
    amount becomes the net amount.  Rule 4: no tax amount and no flag:
    nothing is guessed (the Validator raises the deficiency). *)
Definition resolveVat (rate : Q) (r : DocumentRecord) : DocumentRecord :=
  match amount r with
  | None => r
  | Some a =>
      let inclusive :=
        let net := netOfGross rate a in
        withVat r (Some net) (Some (a - net)) (Some true) in
      match tax_amount r with
      | Some t =>
          if within t (taxOfNet rate a)
          then withVat r (Some a) (Some t) (orElse (vat_inclusive r) false)
          else if within t (a - netOfGross rate a)
          then withVat r (Some a) (Some t) (orElse (vat_inclusive r) true)
          else match vat_inclusive r with
               | Some true => inclusive
               | _ => r
               end
      | None =>
          match vat_inclusive r with
          | Some false => withVat r (Some a) (Some (taxOfNet rate a)) (Some false)
          | Some true => inclusive
          | None => r
          end
      end
  end.

(** Modelled from the spec: the deficiencies of the Validator, in
    priority order (section 4.3); the confidence signals of the Extractor
    are not part of this model. *)
Inductive Deficiency :=
| MissingVendor | MissingAmount | MissingDate | VatAmbiguous | CategoryUnresolved.

Definition isNone {A} (v : option A) : bool :=
  match v with None => true | Some _ => false end.

Definition deficiencies (r : DocumentRecord) : list Deficiency :=
  (if isNone (vendor r) then [MissingVendor] else [])
  ++ (if isNone (amount r) then [MissingAmount] else [])
  ++ (if isNone (date r) then [MissingDate] else [])
  ++ (if isNone (tax_amount r) && isNone (vat_inclusive r) then [VatAmbiguous] else [])
  ++ (if isNone (category r) then [CategoryUnresolved] else []).

(** Modelled from the spec: the Review Question Generator (section 4.4);
    the options of the category question are the closed category set,
    left out here. *)
Definition questionFor (d : Deficiency) : Question :=
  match d with
  | MissingVendor =>
      {| field_name := "vendor"; input_type := InText; options := [] |}
  | MissingAmount =>
      {| field_name := "amount"; input_type := InNumber; options := [] |}
  | MissingDate =>
      {| field_name := "date"; input_type := InDate; options := [] |}
  | VatAmbiguous =>
      {| field_name := "vat_inclusive"; input_type := InSelect;
         options := [("true", "VAT Inclusive"); ("false", "VAT Exclusive")] |}
  | CategoryUnresolved =>
      {| field_name := "category"; input_type := InSelect; options := [] |}
  end.

Definition withReview (r : DocumentRecord) (s : Status) (reason : option string)
           (qs : list Question) : DocumentRecord :=
  {| vendor := vendor r; date := date r; amount := amount r;
     tax_amount := tax_amount r; category := category r;
     vat_inclusive := vat_inclusive r; status := s;
     review_reason := reason; review_questions := qs |}.

(** Modelled from the spec: the Validator (section 4.3): no deficiency
    gives status ok with no questions, otherwise needs_review with one
    question per deficiency. *)
Definition validate (r : DocumentRecord) : DocumentRecord :=
  match deficiencies r with
  | [] => withReview r StatusOk None []
  | ds => withReview r NeedsReview (Some "Review needed") (map questionFor ds)
  end.

(** An answer value, already typed. *)
Inductive Answer := AText (s : string) | ANumber (q : Q) | ABool (b : bool).

(** Modelled from the spec: the coercion of an answer to a boolean field:
    select "true"/"false" becomes a boolean (section 4.5). *)
Definition asBool (a : Answer) : option bool :=
  match a with
  | ABool b => Some b
  | AText s => if String.eqb s "true" then Some true
               else if String.eqb s "false" then Some false else None
  | ANumber _ => None
  end.

Definition asText (a : Answer) : option string :=
  match a with AText s => Some s | _ => None end.

Definition asNumber (a : Answer) : option Q :=
  match a with ANumber q => Some q | _ => None end.

Definition assignField (r : DocumentRecord) (entry : string * Answer)
  : DocumentRecord :=
  let '(f, a) := entry in
  if String.eqb f "vendor" then
    {| vendor := asText a; date := date r; amount := amount r;
       tax_amount := tax_amount r; category := category r;
       vat_inclusive := vat_inclusive r; status := status r;
       review_reason := review_reason r; review_questions := review_questions r |}
  else if String.eqb f "date" then
    {| vendor := vendor r; date := asText a; amount := amount r;
       tax_amount := tax_amount r; category := category r;
       vat_inclusive := vat_inclusive r; status := status r;
       review_reason := review_reason r; review_questions := review_questions r |}
  else if String.eqb f "category" then
    {| vendor := vendor r; date := date r; amount := amount r;
       tax_amount := tax_amount r; category := asText a;
       vat_inclusive := vat_inclusive r; status := status r;
       review_reason := review_reason r; review_questions := review_questions r |}
  else if String.eqb f "amount" then
    withVat r (asNumber a) (tax_amount r) (vat_inclusive r)
  else if String.eqb f "vat_inclusive" then
    withVat r (amount r) (tax_amount r) (asBool a)
  else r.

Definition answered (f : string) (answers : list (string * Answer)) : bool :=
  existsb (fun e => String.eqb (fst e) f) answers.

(** Modelled from the spec: the Resolution Merger, [resolve(record,
    answers)] (section 4.5).  An empty mapping approves the record as it
    is.  Otherwise the answers to the fields of the current questions are
    assigned (with [vat_inclusive] the amount may come along), other
    answers are left out, the VAT Resolver runs again and the Validator
    decides the status. *)
Definition resolve (rate : Q) (r : DocumentRecord)
           (answers : list (string * Answer)) : DocumentRecord :=
  match answers with
  | [] => withReview r StatusOk None []
  | _ :: _ =>
      let asked := map field_name (review_questions r) in
      let accepted :=
        filter (fun e =>
                  existsb (String.eqb (fst e)) asked
                  || (String.eqb (fst e) "amount" && answered "vat_inclusive" answers))
               answers in
      validate (resolveVat rate (fold_left assignField accepted r))
  end.

(** The record of the scenario: an amount of 1000, VAT not yet known. *)
Definition scenarioRecord : DocumentRecord :=
  validate
    {| vendor := Some "Acme"; date := Some "2024-03-01"; amount := Some 1000;
       tax_amount := None; category := Some "Office Supplies";
       vat_inclusive := None; status := NeedsReview; review_reason := None;
       review_questions := [] |}.

Definition scenarioAnswers : list (string * Answer) :=
  [("vat_inclusive", ABool true); ("amount", ANumber 1000)].

(** The same record once the answers are assigned: a gross amount. *)
Definition grossRecord : DocumentRecord :=
  fold_left assignField scenarioAnswers scenarioRecord.

End VatModel.

(* ====================================================================== *)
(** * Part II. Properties *)
(* ====================================================================== *)

(** ** Facts about objects *)

Module JsObjectFacts.
Import JsObject.

Lemma getOwn_setOwn_same {V} (o : obj V) k v :
  getOwn (setOwn o k v) k = Some v.
Proof.
  induction o as [|[k' v'] o IH]; simpl.
  - now rewrite String.eqb_refl.
  - destruct (String.eqb k' k) eqn:E; simpl; rewrite E; auto.
Qed.

Lemma getOwn_setOwn_other {V} (o : obj V) k v k' :
  k <> k' -> getOwn (setOwn o k v) k' = getOwn o k'.
Proof.
  intros Hne. induction o as [|[k0 v0] o IH]; simpl.
  - destruct (String.eqb_spec k k'); congruence.
  - destruct (String.eqb_spec k0 k) as [->|Hk]; simpl.
    + destruct (String.eqb_spec k k'); congruence.
    + now rewrite IH.
Qed.

Lemma in_setOwn {V} (o : obj V) k v e :
  In e (setOwn o k v) -> e = (k, v) \/ In e o.
Proof.
  induction o as [|[k0 v0] o IH]; simpl.
  - intuition.
  - destruct (String.eqb_spec k0 k) as [->|Hk]; simpl; intuition.
Qed.

Lemma setOwn_not_nil {V} (o : obj V) k v : setOwn o k v <> [].
Proof.
  destruct o as [|[k0 v0] o]; simpl; [discriminate|].
  destruct (String.eqb k0 k); discriminate.
Qed.

Lemma getOwn_in {V} (o : obj V) k v : getOwn o k = Some v -> In (k, v) o.
Proof.
  induction o as [|[k0 v0] o IH]; simpl; [discriminate|].
  destruct (String.eqb_spec k0 k) as [->|Hk].
  - intros [= ->]. now left.
  - auto.
Qed.

Lemma in_getOwn {V} (o : obj V) k v :
  NoDup (map fst o) -> In (k, v) o -> getOwn o k = Some v.
Proof.
  induction o as [|[k0 v0] o IH]; simpl; [tauto|].
  intros Hnd [Heq|Hin]; inversion Hnd as [|? ? Hnotin Hnd']; subst.
  - inversion Heq; subst. now rewrite String.eqb_refl.
  - destruct (String.eqb_spec k0 k) as [->|Hk]; auto.
    exfalso. apply Hnotin. apply (in_map fst) in Hin. exact Hin.
Qed.

Lemma keys_setOwn {V} (o : obj V) k v k' :
  In k' (map fst (setOwn o k v)) <-> k' = k \/ In k' (map fst o).
Proof.
  induction o as [|[k0 v0] o IH]; simpl.
  - intuition.
  - destruct (String.eqb_spec k0 k) as [->|Hk]; simpl; [|rewrite IH]; intuition.
Qed.

Lemma NoDup_setOwn {V} (o : obj V) k v :
  NoDup (map fst o) -> NoDup (map fst (setOwn o k v)).
Proof.
  induction o as [|[k0 v0] o IH]; simpl; intros Hnd.
  - constructor; [tauto|constructor].
  - inversion Hnd as [|? ? Hnotin Hnd']; subst.
    destruct (String.eqb_spec k0 k) as [->|Hk]; simpl.
    + now constructor.
    + constructor; auto. rewrite keys_setOwn. intuition.
Qed.

(** [Object.entries] lists every own property exactly once. *)
Lemma insertIndexed_perm {V} i (e : string * V) l :
  Permutation (insertIndexed i e l) ((i, e) :: l).
Proof.
  induction l as [|[j e'] l IH]; simpl; auto.
  destruct (i <? j)%N; auto.
  rewrite IH. apply perm_swap.
Qed.

Lemma indexedEntries_perm {V} (o : obj V) :
  Permutation
    (map snd (indexedEntries o))
    (filter (fun e => match arrayIndex (fst e) with Some _ => true | None => false end) o).
Proof.
  induction o as [|[k v] o IH]; simpl; auto.
  destruct (arrayIndex k); auto.
  rewrite insertIndexed_perm. simpl. now constructor.
Qed.

Lemma filter_split_perm {A} (p q : A -> bool) (l : list A) :
  (forall x, q x = negb (p x)) ->
  Permutation (filter p l ++ filter q l) l.
Proof.
  intros Hq. induction l as [|x l IH]; simpl; auto.
  rewrite Hq. destruct (p x); simpl.
  - now constructor.
  - rewrite <- Permutation_middle. now constructor.
Qed.

Lemma entries_perm {V} (o : obj V) : Permutation (entries o) o.
Proof.
  unfold entries, namedEntries. rewrite indexedEntries_perm.
  apply filter_split_perm.
  intros e. now destruct (arrayIndex (fst e)).
Qed.

Lemma in_entries {V} (o : obj V) e : In e (entries o) <-> In e o.
Proof.
  split; apply Permutation_in; [|symmetry]; apply entries_perm.
Qed.

Lemma length_keys {V} (o : obj V) : List.length (keys o) = List.length o.
Proof.
  unfold keys. rewrite length_map. apply Permutation_length, entries_perm.
Qed.

End JsObjectFacts.

(** ** The invoice page *)

Module ReviewPageFacts.
Import JsObject JsObjectFacts ReviewPage.

Local Open Scope string_scope.

Lemma truthy_isFilled v : truthy v = true -> isFilled v = true.
Proof. destruct v; simpl; auto; discriminate. Qed.

Lemma isFilled_spec v :
  isFilled v = true <-> v <> JsText "" /\ v <> JsNull /\ v <> JsUndefined.
Proof.
  destruct v as [| | b | q | [|c s]]; simpl; split; intros H;
    try discriminate; try (repeat split; discriminate); try reflexivity;
    destruct H as (H1 & H2 & H3); congruence.
Qed.

Lemma in_assign o k v e : In e (assign o k v) -> e = (k, v) \/ In e o.
Proof.
  unfold assign. destruct (String.eqb k "__proto__"); [now right|].
  apply in_setOwn.
Qed.

(** The filtering loop, from any partly built object. *)
Lemma fill_loop_in (l : list (string * JsValue)) :
  forall acc e,
    In e (fold_left fillStep l acc) ->
    In e acc \/ (In e l /\ isFilled (snd e) = true).
Proof.
  induction l as [|[k v] l IH]; simpl; intros acc e Hin; [now left|].
  apply IH in Hin. destruct Hin as [Hin|[Hin Hf]]; [|now right; auto].
  destruct (isFilled v) eqn:Ev; [|now left].
  apply in_assign in Hin. destruct Hin as [->|Hin]; [|now left].
  right. simpl. auto.
Qed.

Lemma fill_loop_blank (l : list (string * JsValue)) :
  (forall e, In e l -> isFilled (snd e) = false) ->
  forall acc, fold_left fillStep l acc = acc.
Proof.
  induction l as [|[k v] l IH]; simpl; intros Hall acc; [reflexivity|].
  assert (Hv : isFilled v = false) by (apply (Hall (k, v)); now left).
  rewrite Hv. apply IH. auto.
Qed.

Lemma fillAnswers_in answers e :
  In e (fillAnswers answers) -> In e answers /\ isFilled (snd e) = true.
Proof.
  intros Hin. apply fill_loop_in in Hin. destruct Hin as [[]|[Hin Hf]].
  split; auto. now apply in_entries.
Qed.

Lemma fillAnswers_blank answers :
  (forall e, In e answers -> isFilled (snd e) = false) ->
  fillAnswers answers = [].
Proof.
  intros Hall. apply fill_loop_blank. intros e He. apply Hall.
  now apply in_entries.
Qed.

Lemma includeAmount_in filled invoice e :
  In e (includeAmount filled invoice) ->
  In e filled \/ (e = ("amount", amount invoice) /\ truthy (amount invoice) = true).
Proof.
  unfold includeAmount.
  destruct (hasProperty filled "vat_inclusive"); simpl; [|now left].
  destruct (truthy (amount invoice)) eqn:Et; [|now left].
  intros Hin. apply in_assign in Hin. tauto.
Qed.

Lemma handleSubmitReview_body answers invoice body :
  handleSubmitReview answers invoice = PostResolveReview body ->
  body = includeAmount (fillAnswers answers) invoice /\ body <> [].
Proof.
  unfold handleSubmitReview. rewrite length_keys.
  destruct (includeAmount (fillAnswers answers) invoice) as [|e l] eqn:E; simpl.
  - discriminate.
  - intros [= <-]. split; [reflexivity|discriminate].
Qed.

(** With no filled answer the click only raises the toast. *)
Lemma handleSubmitReview_blank answers invoice :
  (forall e, In e answers -> isFilled (snd e) = false) ->
  handleSubmitReview answers invoice = ToastNoAnswers.
Proof.
  intros Hall. unfold handleSubmitReview.
  rewrite (fillAnswers_blank answers Hall). reflexivity.
Qed.

(** C10. "Submit Answers" never posts an empty answer mapping: whenever
    the handler posts, the body is a non-empty object, each of its values
    is neither the empty string nor null nor undefined (a filled answer,
    or the amount copied from the invoice), and at least one answer was
    filled in; so with no filled answer nothing is posted.  The empty
    body is posted by "Approve as-is" alone. *)
Theorem submit_review_never_posts_empty
        (answers : obj JsValue) (invoice : PageInvoice) (body : obj JsValue) :
  handleSubmitReview answers invoice = PostResolveReview body ->
  body <> []
  /\ keys body <> []
  /\ (forall k v, In (k, v) body ->
                  (v <> JsText "" /\ v <> JsNull /\ v <> JsUndefined)
                  /\ (In (k, v) answers \/ (k = "amount" /\ v = amount invoice)))
  /\ (exists k v, In (k, v) answers /\ isFilled v = true)
  /\ ~ (forall e, In e answers -> isFilled (snd e) = false)
  /\ handleSkipReview = PostResolveReview [].
Proof.
  intros Hpost.
  destruct (handleSubmitReview_body _ _ _ Hpost) as [Hbody Hne].
  assert (Hex : exists k v, In (k, v) answers /\ isFilled v = true).
  { destruct (fillAnswers answers) as [|[k v] l] eqn:Ef.
    - exfalso. apply Hne. rewrite Hbody. reflexivity.
    - exists k, v. apply (fillAnswers_in answers (k, v)). rewrite Ef. now left. }
  split; [exact Hne|]. split.
  { intros Hk. apply Hne. apply length_zero_iff_nil.
    rewrite <- length_keys, Hk. reflexivity. }
  split.
  { intros k v Hin. rewrite Hbody in Hin.
    apply includeAmount_in in Hin. destruct Hin as [Hin|[Heq Ht]].
    - apply fillAnswers_in in Hin. destruct Hin as [Hin Hf].
      split; [now apply isFilled_spec|now left].
    - inversion Heq; subst. split; [|now right].
      apply isFilled_spec. now apply truthy_isFilled. }
  split; [exact Hex|]. split; [|reflexivity].
  intros Hall. destruct Hex as (k & v & Hin & Hf).
  specialize (Hall (k, v) Hin). simpl in Hall. congruence.
Qed.

Lemma submit_review_never_posts_empty_witness :
  handleSubmitReview sampleAnswers sampleInvoice = PostResolveReview sampleBody
  /\ sampleBody <> [].
Proof.
  split; [reflexivity|].
  exact (proj1 (submit_review_never_posts_empty
                  sampleAnswers sampleInvoice sampleBody eq_refl)).
Defined.

(** C8. When the handler posts answers that contain [vat_inclusive] and
    the loaded invoice has an amount (a truthy [invoice.amount]), the
    posted mapping has the own property [amount], and its value is the
    amount of the existing record. *)
Theorem submit_review_sends_amount_with_vat
        (answers : obj JsValue) (invoice : PageInvoice) (body : obj JsValue) :
  handleSubmitReview answers invoice = PostResolveReview body ->
  hasOwn body "vat_inclusive" = true ->
  truthy (amount invoice) = true ->
  getOwn body "amount" = Some (amount invoice).
Proof.
  intros Hpost Hvat Hamt.
  destruct (handleSubmitReview_body _ _ _ Hpost) as [Hbody _].
  subst body. unfold includeAmount in *. rewrite Hamt in *.
  rewrite andb_true_r in *.
  destruct (hasProperty (fillAnswers answers) "vat_inclusive") eqn:Ep.
  - unfold assign. simpl. apply getOwn_setOwn_same.
  - unfold hasProperty in Ep. rewrite Hvat in Ep. discriminate.
Qed.

Lemma submit_review_sends_amount_with_vat_witness :
  getOwn sampleBody "amount" = Some (JsNumber 1000).
Proof.
  exact (submit_review_sends_amount_with_vat
           sampleAnswers sampleInvoice sampleBody eq_refl eq_refl eq_refl).
Defined.

End ReviewPageFacts.

(** ** Facts about [Array.prototype.sort] *)

Module JsArrayFacts.
Import JsArray.

Section SortFacts.
Context {A : Type} (cmp : A -> A -> Z).

Lemma insertSorted_perm x l : Permutation (insertSorted cmp x l) (x :: l).
Proof.
  induction l as [|y l IH]; simpl; auto.
  destruct (cmp x y <=? 0); auto.
  rewrite IH. apply perm_swap.
Qed.

Lemma sort_perm l : Permutation (sort cmp l) l.
Proof.
  induction l as [|x l IH]; simpl; auto.
  rewrite insertSorted_perm. now constructor.
Qed.

Lemma in_sort l x : In x (sort cmp l) <-> In x l.
Proof. split; apply Permutation_in; [|symmetry]; apply sort_perm. Qed.

Lemma length_sort l : List.length (sort cmp l) = List.length l.
Proof. apply Permutation_length, sort_perm. Qed.

(** A comparator that subtracts integer keys orders by the key. *)
Variable key : A -> Z.
Hypothesis cmp_key : forall a b, cmp a b = key a - key b.

Lemma insertSorted_sorted x l :
  StronglySorted (keyLe key) l -> StronglySorted (keyLe key) (insertSorted cmp x l).
Proof.
  induction l as [|y l IH]; simpl; intros Hs.
  - constructor; [constructor|constructor].
  - inversion Hs as [|? ? Hs' Hall]; subst.
    destruct (Z.leb_spec (cmp x y) 0) as [Hle|Hgt]; rewrite cmp_key in *.
    + constructor; [exact Hs|].
      constructor; [unfold keyLe; lia|].
      eapply Forall_impl; [|exact Hall]. unfold keyLe. intros; lia.
    + constructor; [now apply IH|].
      eapply Permutation_Forall; [symmetry; apply insertSorted_perm|].
      constructor; [unfold keyLe; lia|exact Hall].
Qed.

Lemma sort_sorted l : StronglySorted (keyLe key) (sort cmp l).
Proof.
  induction l as [|x l IH]; simpl; [constructor|].
  now apply insertSorted_sorted.
Qed.

(** The first element of the result has the least key. *)
Lemma sort_head_least l x rest :
  sort cmp l = x :: rest -> forall y, In y l -> key x <= key y.
Proof.
  intros Hs y Hy. pose proof (sort_sorted l) as Hsorted.
  rewrite Hs in Hsorted. inversion Hsorted as [|? ? _ Hall]; subst.
  apply (in_sort l) in Hy. rewrite Hs in Hy. destruct Hy as [->|Hy].
  - lia.
  - rewrite Forall_forall in Hall. now apply Hall.
Qed.
End SortFacts.


(** Sorting commutes with a map that the comparator does not see. *)
Lemma insertSorted_map {A B} (f : A -> B) (cmpA : A -> A -> Z) (cmpB : B -> B -> Z) :
  (forall a b, cmpB (f a) (f b) = cmpA a b) ->
  forall x l, insertSorted cmpB (f x) (map f l) = map f (insertSorted cmpA x l).
Proof.
  intros Hc x l. induction l as [|y l IH]; simpl; auto.
  rewrite Hc. destruct (cmpA x y <=? 0); simpl; congruence.
Qed.

Lemma sort_map {A B} (f : A -> B) (cmpA : A -> A -> Z) (cmpB : B -> B -> Z) :
  (forall a b, cmpB (f a) (f b) = cmpA a b) ->
  forall l, sort cmpB (map f l) = map f (sort cmpA l).
Proof.
  intros Hc l. induction l as [|x l IH]; simpl; auto.
  rewrite IH. now apply insertSorted_map.
Qed.

End JsArrayFacts.

(** ** The recurring-expense analyzer: grouping by vendor *)

Module GroupingFacts.
Import JsString JsObject JsObjectFacts JsArrayFacts Dashboard.

Local Open Scope string_scope.

Lemma isUsable_isComplete inv : isUsable inv = isComplete inv.
Proof.
  unfold isUsable, isComplete, truthyString, truthyNumber.
  destruct (Invoice.vendor inv) as [[|c v]|]; simpl; auto;
    destruct (Invoice.date inv) as [[|c' d]|]; simpl; auto;
    destruct (Invoice.amount inv); simpl; auto.
Qed.

Lemma collect_skips inv o : isUsable inv = false -> collect o inv = Returns o.
Proof. unfold collect. now intros ->. Qed.

(** The first loop sees only the usable records. *)
Lemma collect_loop_filter invoices :
  forall o, forEachO collect (filter isUsable invoices) o = forEachO collect invoices o.
Proof.
  induction invoices as [|inv invoices IH]; intros o; simpl; auto.
  destruct (isUsable inv) eqn:Eu; simpl.
  - destruct (collect o inv); simpl; auto.
  - rewrite (collect_skips inv o Eu). simpl. apply IH.
Qed.

Lemma recordsOf_cons key inv invoices :
  recordsOf key (inv :: invoices) =
  if isUsable inv && String.eqb (vendorKey (orEmpty (Invoice.vendor inv))) key
  then inv :: recordsOf key invoices else recordsOf key invoices.
Proof. reflexivity. Qed.

Lemma collect_loop_get invoices :
  forall acc o key,
    forEachO collect invoices acc = Returns o ->
    getOwn o key = filed (getOwn acc key) (recordsOf key invoices).
Proof.
  induction invoices as [|inv invoices IH]; intros acc o key Hrun; simpl in Hrun.
  - inversion Hrun; subst. simpl. destruct (getOwn o key); simpl; auto.
    now rewrite app_nil_r.
  - rewrite recordsOf_cons.
    destruct (collect acc inv) as [acc'|e] eqn:Ec; simpl in Hrun; [|discriminate].
    rewrite (IH acc' o key Hrun). unfold collect in Ec.
    destruct (isUsable inv) eqn:Eu; simpl in Ec.
    2:{ inversion Ec; subst. reflexivity. }
    set (vendor := vendorKey (orEmpty (Invoice.vendor inv))) in *.
    simpl. destruct (String.eqb_spec vendor key) as [Heq|Hne].
    + subst key. destruct (getOwn acc vendor) as [invs|] eqn:Eg.
      * inversion Ec; subst. rewrite getOwn_setOwn_same. simpl.
        now rewrite <- app_assoc.
      * destruct (inherited vendor); [discriminate|].
        inversion Ec; subst. rewrite getOwn_setOwn_same. reflexivity.
    + destruct (getOwn acc vendor) as [invs|] eqn:Eg.
      * inversion Ec; subst. now rewrite getOwn_setOwn_other.
      * destruct (inherited vendor); [discriminate|].
        inversion Ec; subst. now rewrite getOwn_setOwn_other.
Qed.

Lemma collect_loop_NoDup invoices :
  forall acc o,
    forEachO collect invoices acc = Returns o ->
    NoDup (map fst acc) -> NoDup (map fst o).
Proof.
  induction invoices as [|inv invoices IH]; intros acc o Hrun Hnd; simpl in Hrun.
  - now inversion Hrun; subst.
  - destruct (collect acc inv) as [acc'|e] eqn:Ec; simpl in Hrun; [|discriminate].
    apply (IH acc' o Hrun). unfold collect in Ec.
    destruct (isUsable inv); simpl in Ec; [|now inversion Ec; subst].
    destruct (getOwn acc _).
    + inversion Ec; subst. now apply NoDup_setOwn.
    + destruct (inherited _); [discriminate|].
      inversion Ec; subst. now apply NoDup_setOwn.
Qed.

(** The loop throws only on a usable record whose key names a property
    of [Object.prototype]. *)
Lemma collect_loop_returns invoices :
  (forall inv, In inv invoices -> isUsable inv = true ->
               inherited (vendorKey (orEmpty (Invoice.vendor inv))) = false) ->
  forall acc, exists o, forEachO collect invoices acc = Returns o.
Proof.
  induction invoices as [|inv invoices IH]; intros Hok acc; simpl.
  - now exists acc.
  - assert (Hc : exists acc', collect acc inv = Returns acc').
    { unfold collect. destruct (isUsable inv) eqn:Eu; simpl; [|now eexists].
      destruct (getOwn acc _); [now eexists|].
      rewrite (Hok inv) by (simpl; auto). now eexists. }
    destruct Hc as [acc' ->]. simpl. apply IH.
    intros inv' Hin. apply Hok. now right.
Qed.

(** The entries of the vendor object are the non-empty [recordsOf]. *)
Lemma grouped_entries invoices o :
  forEachO collect invoices [] = Returns o ->
  forall key invs,
    In (key, invs) (entries o) <->
    invs = recordsOf key invoices /\ invs <> [].
Proof.
  intros Hrun key invs.
  pose proof (collect_loop_get invoices [] o key Hrun) as Hget. simpl in Hget.
  pose proof (collect_loop_NoDup invoices [] o Hrun (NoDup_nil _)) as Hnd.
  rewrite in_entries. split.
  - intros Hin. apply (in_getOwn o key invs Hnd) in Hin.
    rewrite Hin in Hget. destruct (recordsOf key invoices); [discriminate|].
    inversion Hget; subst. split; [reflexivity|discriminate].
  - intros [-> Hne]. apply getOwn_in. rewrite Hget.
    destruct (recordsOf key invoices); congruence.
Qed.

Lemma recordsOf_in key invoices inv :
  In inv (recordsOf key invoices) <->
  In inv invoices /\ isUsable inv = true
  /\ vendorKey (orEmpty (Invoice.vendor inv)) = key.
Proof.
  unfold recordsOf. rewrite filter_In, andb_true_iff.
  destruct (String.eqb_spec (vendorKey (orEmpty (Invoice.vendor inv))) key);
    intuition congruence.
Qed.

Lemma recordsOf_filter key invoices :
  recordsOf key (filter isUsable invoices) = recordsOf key invoices.
Proof.
  induction invoices as [|inv invoices IH]; simpl; auto.
  destruct (isUsable inv) eqn:Eu; simpl; rewrite ?recordsOf_cons, ?Eu; simpl;
    rewrite IH; auto.
Qed.

End GroupingFacts.

(** ** The recurring-expense analyzer: one vendor, and the output *)

Module AnalyzerFacts.
Import JsString JsObject JsObjectFacts JsArrayFacts Dashboard GroupingFacts.

Local Open Scope string_scope.
Local Open Scope Z_scope.

Lemma push_loop_in {E C} (f : E -> option C) (l : list E) :
  forall acc c,
    In c (fold_left (fun acc e => pushSome acc (f e)) l acc) <->
    In c acc \/ exists e, In e l /\ f e = Some c.
Proof.
  induction l as [|e l IH]; intros acc c; simpl.
  - split; [now left|]. intros [H|(e & [] & _)]. exact H.
  - rewrite IH. unfold pushSome. split.
    + intros [Hin|(e' & Hin & Hf)].
      * destruct (f e) as [x|] eqn:Ef; [|now left].
        apply in_app_or in Hin. destruct Hin as [Hin|[<-|[]]]; [now left|].
        right. exists e. auto.
      * right. exists e'. auto.
    + intros [Hin|(e' & [<-|Hin] & Hf)].
      * left. destruct (f e); [apply in_or_app|]; auto.
      * left. rewrite Hf. apply in_or_app. right. now left.
      * right. exists e'. auto.
Qed.

Section Analyzer.
Variable parseDate : string -> Z.
Variable classify : string -> option string -> option string.
Variable now : Z.

Local Abbreviation analyzeVendor := (analyzeVendor parseDate classify now).
Local Abbreviation analyzeWith := (analyzeWith parseDate classify now).
Local Abbreviation selectedGroup := (selectedGroup parseDate).
Local Abbreviation byDate := (byDate parseDate).

(** What a pushed candidate says about the vendor's records. *)
Lemma analyzeVendor_some key invs c :
  analyzeVendor (key, invs) = Some c ->
  2 <= Z.of_nat (List.length invs)
  /\ isExcluded (RecurringExpense.vendor c) = false
  /\ (exists first rest,
         JsArray.sort byDate invs = first :: rest
         /\ RecurringExpense.vendor c =
            if truthyString (Invoice.vendor first)
            then orEmpty (Invoice.vendor first) else key)
  /\ exists day group,
      selectedGroup invs = Some (day, group)
      /\ isMonthlyConsistent parseDate group = true
      /\ RecurringExpense.avgAmount c = average (map amountOrZero group)
      /\ RecurringExpense.dayOfMonth c = day
      /\ RecurringExpense.frequency c = Z.of_nat (List.length group)
      /\ RecurringExpense.lastDate c =
         match last (map Some group) None with
         | Some inv => orEmpty (Invoice.date inv)
         | None => ""
         end
      /\ RecurringExpense.nextExpected c = nextExpectedDate now day.
Proof.
  unfold Dashboard.analyzeVendor, Dashboard.selectedGroup.
  destruct (Z.ltb_spec (Z.of_nat (List.length invs)) 2) as [Hlt|Hge];
    [discriminate|].
  destruct (JsArray.sort byDate invs) as [|first rest] eqn:Es.
  { exfalso. apply (f_equal (@List.length _)) in Es.
    rewrite length_sort in Es. simpl in Es. lia. }
  match goal with |- context [isExcluded ?d] => set (displayVendor := d) end.
  destruct (isExcluded displayVendor) eqn:Ex; [discriminate|].
  destruct (validGroups _) as [|[avgDay group] others]; [discriminate|].
  destruct (isMonthlyConsistent parseDate _) eqn:Em; [|discriminate].
  simpl. intros [= <-]. simpl.
  split; [exact Hge|]. split; [exact Ex|]. split.
  { exists first, rest. split; reflexivity. }
  exists avgDay, (JsArray.sort byDate group). repeat split; auto.
Qed.

(** A cluster with a gap out of range stops the vendor. *)
Lemma analyzeVendor_inconsistent key invs day group :
  selectedGroup invs = Some (day, group) ->
  isMonthlyConsistent parseDate group = false ->
  analyzeVendor (key, invs) = None.
Proof.
  unfold Dashboard.analyzeVendor, Dashboard.selectedGroup.
  destruct (Z.of_nat (List.length invs) <? 2); [reflexivity|].
  destruct (isExcluded _); [reflexivity|].
  destruct (validGroups (groupByDay parseDate (JsArray.sort byDate invs)))
    as [|[avgDay g] others]; [discriminate|].
  intros [= <- <-] ->. reflexivity.
Qed.

(** The candidates of the output are the candidates of the vendors. *)
Lemma analyzeWith_out invoices out :
  analyzeWith invoices = Returns out ->
  forall c, In c out <->
            exists key, analyzeVendor (key, recordsOf key invoices) = Some c.
Proof.
  unfold Dashboard.analyzeWith.
  destruct (forEachO collect invoices []) as [o|e] eqn:Erun; simpl; [|discriminate].
  intros [= <-] c. rewrite in_sort, push_loop_in. split.
  - intros [[]|([key invs] & Hin & Hf)].
    apply (grouped_entries invoices o Erun) in Hin. destruct Hin as [-> _].
    now exists key.
  - intros [key Hf]. right. exists (key, recordsOf key invoices).
    split; [|exact Hf].
    apply (grouped_entries invoices o Erun). split; [reflexivity|].
    apply analyzeVendor_some in Hf. destruct Hf as [Hlen _].
    destruct (recordsOf key invoices); [simpl in Hlen; lia|discriminate].
Qed.

(** The displayed vendor is the name on the vendor's earliest record;
    its normalized form is the key of the group. *)
Lemma analyzeVendor_key key invoices c :
  analyzeVendor (key, recordsOf key invoices) = Some c ->
  vendorKey (RecurringExpense.vendor c) = key
  /\ exists first,
      In first (recordsOf key invoices)
      /\ Invoice.vendor first = Some (RecurringExpense.vendor c).
Proof.
  intros Hc. apply analyzeVendor_some in Hc.
  destruct Hc as (_ & _ & (first & rest & Es & Hv) & _).
  assert (Hin : In first (recordsOf key invoices)).
  { apply (in_sort byDate). rewrite Es. now left. }
  pose proof Hin as Hin'. apply recordsOf_in in Hin'.
  destruct Hin' as (_ & Hu & Hk).
  unfold isUsable in Hu. apply andb_true_iff in Hu. destruct Hu as [Hu _].
  apply andb_true_iff in Hu. destruct Hu as [Hu _].
  rewrite Hu in Hv. split; [now rewrite Hv|].
  exists first. split; [exact Hin|].
  rewrite Hv. destruct (Invoice.vendor first); [reflexivity|discriminate].
Qed.

(** The analyzer returns a list unless a usable record is filed under a
    name of [Object.prototype]. *)
Lemma analyzeWith_returns invoices :
  (forall inv, In inv invoices -> isUsable inv = true ->
               inherited (vendorKey (orEmpty (Invoice.vendor inv))) = false) ->
  exists out, analyzeWith invoices = Returns out.
Proof.
  intros Hok. unfold Dashboard.analyzeWith.
  destruct (collect_loop_returns invoices Hok []) as [o ->]. simpl. eauto.
Qed.

Lemma analyzeWith_vendor invoices out c :
  analyzeWith invoices = Returns out ->
  In c out ->
  analyzeVendor
    (vendorKey (RecurringExpense.vendor c),
     recordsOf (vendorKey (RecurringExpense.vendor c)) invoices) = Some c.
Proof.
  intros Hrun Hin.
  apply (analyzeWith_out invoices out Hrun) in Hin. destruct Hin as [key Hc].
  destruct (analyzeVendor_key key invoices c Hc) as [<- _]. exact Hc.
Qed.

End Analyzer.
End AnalyzerFacts.

(** ** Facts about strings: [includes] through [trim] *)

Module JsStringFacts.
Import JsString.

Local Open Scope string_scope.

Lemma prefix_nil_r k : String.prefix k "" = isEmpty k.
Proof. now destruct k. Qed.

Lemma prefix_nil_l s : String.prefix "" s = true.
Proof. now destruct s. Qed.

Lemma prefix_cons a k b s :
  String.prefix (String a k) (String b s) = Ascii.eqb a b && String.prefix k s.
Proof.
  simpl. destruct (ascii_dec a b) as [->|Hne].
  - now rewrite Ascii.eqb_refl.
  - destruct (Ascii.eqb_spec a b); [contradiction|reflexivity].
Qed.

Lemma endsClean_tail a k : endsClean (String a k) = true -> endsClean k = true.
Proof. simpl. destruct k; auto. Qed.

Lemma prefix_trimEnd s :
  forall k, endsClean k = true ->
            String.prefix k (trimEnd s) = String.prefix k s.
Proof.
  induction s as [|c s IH]; intros k Hk; [reflexivity|].
  destruct k as [|a k]; [now rewrite !prefix_nil_l|].
  pose proof (IH k (endsClean_tail a k Hk)) as IHk.
  cbn [trimEnd].
  destruct (isWhiteSpace c && isEmpty (trimEnd s)) eqn:Ew.
  - apply andb_true_iff in Ew. destruct Ew as [Hc He].
    rewrite prefix_cons, <- IHk.
    destruct (trimEnd s); [|discriminate].
    rewrite prefix_nil_r. simpl.
    destruct k; simpl; [|now rewrite andb_false_r].
    simpl in Hk. destruct (Ascii.eqb_spec a c) as [->|]; [|reflexivity].
    rewrite Hc in Hk. discriminate.
  - now rewrite !prefix_cons, IHk.
Qed.

Lemma includes_trimEnd s :
  forall k, cleanEnds k = true -> includes (trimEnd s) k = includes s k.
Proof.
  intros k Hk. destruct k as [|a k]; [discriminate|].
  unfold cleanEnds in Hk. apply andb_true_iff in Hk. destruct Hk as [_ Hk].
  induction s as [|c s IH]; [reflexivity|].
  cbn [includes]. rewrite <- IH, <- (prefix_trimEnd (String c s) _ Hk).
  cbn [trimEnd].
  destruct (isWhiteSpace c && isEmpty (trimEnd s)) eqn:Ew.
  - apply andb_true_iff in Ew. destruct Ew as [_ He].
    destruct (trimEnd s); [reflexivity|discriminate].
  - reflexivity.
Qed.

Lemma includes_trimStart s :
  forall k, cleanEnds k = true -> includes (trimStart s) k = includes s k.
Proof.
  intros k Hk. destruct k as [|a k]; [discriminate|].
  simpl in Hk. apply andb_true_iff in Hk. destruct Hk as [Ha _].
  induction s as [|c s IH]; [reflexivity|].
  cbn [trimStart]. destruct (isWhiteSpace c) eqn:Ec; [|reflexivity].
  rewrite IH. cbn [includes]. rewrite prefix_cons.
  destruct (Ascii.eqb_spec a c) as [->|]; [|reflexivity].
  rewrite Ec in Ha. discriminate.
Qed.

(** Trimming the text does not change which clean keywords it contains. *)
Lemma includes_trim s k :
  cleanEnds k = true -> includes (trim s) k = includes s k.
Proof.
  intros Hk. unfold trim.
  now rewrite includes_trimEnd, includes_trimStart.
Qed.

Lemma some_includes_trim s (keywords : list string) :
  forallb cleanEnds keywords = true ->
  JsArray.some (fun k => includes (trim s) k) keywords
  = JsArray.some (fun k => includes s k) keywords.
Proof.
  unfold JsArray.some. induction keywords as [|k l IH]; simpl; [reflexivity|].
  intros H. apply andb_true_iff in H. destruct H as [Hk Hl].
  now rewrite includes_trim, IH.
Qed.

End JsStringFacts.

(** ** The recurring-expense analyzer: day clusters *)

Module ClusterFacts.
Import JsString JsArrayFacts Dashboard GroupingFacts.

Local Open Scope Z_scope.

Lemma in_setDay g k v e : In e (setDay g k v) -> e = (k, v) \/ In e g.
Proof.
  induction g as [|[k' v'] g IH]; simpl.
  - intuition.
  - destruct (k <? k'); [simpl; intuition|].
    destruct (k =? k'); simpl; intuition.
Qed.


Section Clusters.
Variable parseDate : string -> Z.

Local Abbreviation timeOf := (timeOf parseDate).
Local Abbreviation byDate := (byDate parseDate).


(** Every key of a day group is the day of month of a grouped invoice. *)
Lemma groupByDay_loop_keys l :
  forall acc e,
    In e (fold_left (addToDayGroups parseDate) l acc) ->
    (exists inv, In inv l /\ fst e = JsDate.getDate (timeOf inv))
    \/ exists e', In e' acc /\ fst e' = fst e.
Proof.
  induction l as [|x l IH]; intros acc e He; simpl in He.
  - right. exists e. auto.
  - destruct (IH _ e He) as [(inv & Hin & Hk)|(e' & He' & Hk)].
    { left. exists inv. split; [now right|exact Hk]. }
    unfold addToDayGroups in He'.
    destruct (find _ (map fst acc)) as [matchedDay|] eqn:Ef.
    + apply in_setDay in He'. destruct He' as [->|He']; [|right; eauto].
      apply find_some in Ef. destruct Ef as [Hin _].
      apply in_map_iff in Hin. destruct Hin as (e0 & He0 & Hin).
      right. exists e0. split; [exact Hin|]. now rewrite He0, <- Hk.
    + apply in_setDay in He'. destruct He' as [->|He']; [|right; eauto].
      left. exists x. split; [now left|]. now rewrite <- Hk.
Qed.


(** The kept cluster is a day group of the vendor with at least two
    members, no smaller than any other day group, in date order. *)
Lemma selectedGroup_cluster invs day group :
  selectedGroup parseDate invs = Some (day, group) ->
  exists members,
    In (day, members) (groupByDay parseDate (JsArray.sort byDate invs))
    /\ group = JsArray.sort byDate members
    /\ (2 <= List.length members)%nat
    /\ forall e, In e (groupByDay parseDate (JsArray.sort byDate invs)) ->
                 (List.length (snd e) <= List.length members)%nat.
Proof.
  unfold selectedGroup.
  destruct (validGroups _) as [|[avgDay members] others] eqn:Ev; [discriminate|].
  intros [= <- <-]. exists members. unfold validGroups in Ev.
  assert (Hin : In (avgDay, members)
                   (filter (fun e => 2 <=? Z.of_nat (List.length (snd e)))
                           (groupByDay parseDate (JsArray.sort byDate invs)))).
  { eapply in_sort. rewrite Ev. now left. }
  apply filter_In in Hin. destruct Hin as [Hin Hlen]. simpl in Hlen.
  apply Z.leb_le in Hlen.
  split; [exact Hin|]. split; [reflexivity|]. split; [lia|].
  intros e He.
  destruct (Z.leb_spec 2 (Z.of_nat (List.length (snd e)))) as [H2|H2]; [|lia].
  assert (Hkey : forall a b : Z * list Invoice.t,
             Z.of_nat (List.length (snd b)) - Z.of_nat (List.length (snd a))
             = - Z.of_nat (List.length (snd a)) - - Z.of_nat (List.length (snd b)))
    by (intros; lia).
  pose proof (sort_head_least _ _ Hkey _ _ _ Ev e) as Hleast.
  simpl in Hleast. cut (- Z.of_nat (List.length members)
                        <= - Z.of_nat (List.length (snd e))); [lia|].
  apply Hleast. apply filter_In. split; [exact He|]. now apply Z.leb_le.
Qed.



(** The loop of STEP 3 accepts exactly the clusters whose adjacent gaps
    all lie in 25..38 days. *)
Lemma isMonthlyConsistent_gaps group :
  isMonthlyConsistent parseDate group = true ->
  forall i prev curr,
    nth_error group i = Some prev -> nth_error group (S i) = Some curr ->
    25 <= daysDiff parseDate prev curr <= 38.
Proof.
  induction group as [|x group IH]; intros Hc i prev curr Hp Hn.
  - destruct i; discriminate.
  - simpl in Hc. destruct group as [|y group]; [destruct i; discriminate|].
    destruct (Z.ltb_spec (daysDiff parseDate x y) 25) as [|Hlo];
      [discriminate|].
    destruct (Z.gtb_spec (daysDiff parseDate x y) 38) as [|Hhi];
      [discriminate|].
    simpl in Hc. destruct i as [|i].
    + simpl in Hp, Hn. inversion Hp; inversion Hn; subst. lia.
    + apply (IH Hc i); assumption.
Qed.

Lemma hasGapOutOfRange_inconsistent group :
  hasGapOutOfRange parseDate group ->
  isMonthlyConsistent parseDate group = false.
Proof.
  intros (i & prev & curr & Hp & Hn & Hgap).
  destruct (isMonthlyConsistent parseDate group) eqn:Ec; [|reflexivity].
  pose proof (isMonthlyConsistent_gaps group Ec i prev curr Hp Hn). lia.
Qed.



End Clusters.

(** Amounts *)





End ClusterFacts.

(** ** Facts about the calendar *)

Module JsDateFacts.
Import JsDate.

Local Open Scope Z_scope.

Lemma daysInMonth_bounds y m : 28 <= daysInMonth y m <= 31.
Proof.
  unfold daysInMonth.
  destruct (m =? 2); [destruct (isLeapYear y); lia|].
  destruct ((m =? 4) || (m =? 6) || (m =? 9) || (m =? 11)); lia.
Qed.

Lemma daysFromCivil_day y m d :
  daysFromCivil y m d = daysFromCivil y m 1 + d - 1.
Proof. unfold daysFromCivil. lia. Qed.

(** The year of the era and the month from March, in both directions. *)
Lemma yearOfEra_inv Y doy :
  0 <= Y <= 399 -> 0 <= doy < yearLength Y -> yearOfEra (yearStart Y + doy) = Y.
Proof.
  unfold yearLength, yearOfEra, yearStart. intros HY Hd.
  destruct (Z.eqb_spec Y 399) as [->|Hne].
  - Z.div_mod_to_equations; lia.
  - Z.div_mod_to_equations; lia.
Qed.

Lemma yearOfEra_spec doe :
  0 <= doe < 146097 ->
  0 <= yearOfEra doe <= 399
  /\ 0 <= doe - yearStart (yearOfEra doe) < yearLength (yearOfEra doe).
Proof.
  unfold yearLength, yearOfEra, yearStart. intros Hd.
  set (Y := (doe - doe / 1460 + doe / 36524 - doe / 146096) / 365).
  assert (HY : 0 <= Y <= 399) by (unfold Y; Z.div_mod_to_equations; lia).
  split; [exact HY|].
  destruct (Z.eqb_spec Y 399) as [E|Hne].
  - unfold Y in *; Z.div_mod_to_equations; lia.
  - unfold Y in *; Z.div_mod_to_equations; lia.
Qed.

Lemma monthOfYear_inv mp k :
  0 <= mp <= 11 -> 0 <= k -> monthStart mp + k < monthStart (mp + 1) ->
  (5 * (monthStart mp + k) + 2) / 153 = mp.
Proof. unfold monthStart. intros. Z.div_mod_to_equations; lia. Qed.

Lemma monthOfYear_spec doy :
  0 <= doy <= 365 ->
  0 <= (5 * doy + 2) / 153 <= 11
  /\ monthStart ((5 * doy + 2) / 153) <= doy < monthStart ((5 * doy + 2) / 153 + 1).
Proof. unfold monthStart. intros. Z.div_mod_to_equations; lia. Qed.

Lemma yearLength_leap y :
  yearLength (y - 1 - (y - 1) / 400 * 400) = if isLeapYear y then 366 else 365.
Proof.
  unfold yearLength, yearStart, isLeapYear.
  destruct (Z.eqb_spec (y - 1 - (y - 1) / 400 * 400) 399);
  destruct (Z.eqb_spec (y mod 4) 0); destruct (Z.eqb_spec (y mod 100) 0);
  destruct (Z.eqb_spec (y mod 400) 0); cbn [andb orb negb];
  Z.div_mod_to_equations; lia.
Qed.

Lemma yearLength_bounds Y : 0 <= Y <= 399 -> 365 <= yearLength Y <= 366.
Proof.
  unfold yearLength, yearStart. intros HY.
  destruct (Z.eqb_spec Y 399); [lia|]. Z.div_mod_to_equations; lia.
Qed.

Lemma yearStart_bounds Y :
  0 <= Y <= 399 -> 0 <= yearStart Y /\ yearStart Y + yearLength Y <= 146097.
Proof.
  unfold yearLength, yearStart. intros HY.
  destruct (Z.eqb_spec Y 399); Z.div_mod_to_equations; lia.
Qed.

Lemma era_split ys :
  0 <= ys - ys / 400 * 400 <= 399.
Proof. Z.div_mod_to_equations; lia. Qed.

(** One goal per month 1..12. *)
Ltac month_cases m Hm :=
  let H := fresh "Hcases" in
  assert (H : m = 1 \/ m = 2 \/ m = 3 \/ m = 4 \/ m = 5 \/ m = 6 \/ m = 7
              \/ m = 8 \/ m = 9 \/ m = 10 \/ m = 11 \/ m = 12) by lia;
  clear Hm;
  repeat (destruct H as [H|H]; [subst m|]); [..|subst m].

(** Evaluates the sums and the tests on numerals that a concrete month
    leaves in the goal. *)
Ltac eval_tests :=
  repeat match goal with
    | |- context [Z.add (Zpos ?a) (Zpos ?b)] =>
        let v := eval compute in (Z.add (Zpos a) (Zpos b)) in
        change (Z.add (Zpos a) (Zpos b)) with v
    | |- context [Z.sub (Zpos ?a) (Zpos ?b)] =>
        let v := eval compute in (Z.sub (Zpos a) (Zpos b)) in
        change (Z.sub (Zpos a) (Zpos b)) with v
    | |- context [Z.add Z0 (Zpos ?b)] =>
        change (Z.add Z0 (Zpos b)) with (Zpos b)
    | |- context [Z.eqb ?a ?b] =>
        match a with Zpos _ => idtac | Z0 => idtac end;
        match b with Zpos _ => idtac | Z0 => idtac end;
        let v := eval compute in (Z.eqb a b) in change (Z.eqb a b) with v
    | |- context [Z.leb ?a ?b] =>
        match a with Zpos _ => idtac | Z0 => idtac end;
        match b with Zpos _ => idtac | Z0 => idtac end;
        let v := eval compute in (Z.leb a b) in change (Z.leb a b) with v
    end;
  cbn [orb andb negb fst snd].

(** The cases of the leap-year rule. *)
Ltac leap_cases y :=
  unfold isLeapYear;
  destruct (Z.eqb_spec (y mod 4) 0); destruct (Z.eqb_spec (y mod 100) 0);
  destruct (Z.eqb_spec (y mod 400) 0); cbn [andb orb negb].

Lemma nextMonth_start y m :
  1 <= m <= 12 ->
  daysFromCivil (fst (nextMonth y m)) (snd (nextMonth y m)) 1
  = daysFromCivil y m 1 + daysInMonth y m.
Proof.
  intros Hm. month_cases m Hm;
    unfold nextMonth, daysInMonth; eval_tests;
    unfold daysFromCivil, monthStart, yearStart; eval_tests;
    try (Z.div_mod_to_equations; lia).
  leap_cases y; Z.div_mod_to_equations; lia.
Qed.

(** Both maps through the year of the era and the month counted from March. *)
Lemma daysFromCivil_shifted y m d era Y :
  0 <= Y <= 399 ->
  (if m <=? 2 then y - 1 else y) = Y + era * 400 ->
  daysFromCivil y m d
  = era * 146097 + (yearStart Y + (monthStart ((m + 9) mod 12) + d - 1)) - 719468.
Proof.
  intros HY Hys. unfold daysFromCivil. rewrite Hys.
  rewrite Z.div_add, Z.div_small by lia.
  replace (Y + era * 400 - (0 + era) * 400) with Y by ring. ring.
Qed.

Lemma civilFromDays_shifted era Y mp k :
  0 <= Y <= 399 -> 0 <= mp <= 11 -> 0 <= k ->
  monthStart mp + k < monthStart (mp + 1) ->
  monthStart mp + k < yearLength Y ->
  civilFromDays (era * 146097 + (yearStart Y + (monthStart mp + k)) - 719468)
  = (if monthOf mp <=? 2 then Y + era * 400 + 1 else Y + era * 400,
     monthOf mp, k + 1).
Proof.
  intros HY Hmp Hk Hmonth Hyear.
  pose proof (yearStart_bounds Y HY) as Hys.
  assert (Hms : 0 <= monthStart mp)
    by (unfold monthStart; Z.div_mod_to_equations; lia).
  unfold civilFromDays.
  replace (era * 146097 + (yearStart Y + (monthStart mp + k)) - 719468 + 719468)
    with (yearStart Y + (monthStart mp + k) + era * 146097) by ring.
  cbv zeta.
  rewrite Z.div_add by lia.
  rewrite (Z.div_small (yearStart Y + (monthStart mp + k)) 146097) by lia.
  replace (yearStart Y + (monthStart mp + k) + era * 146097 - (0 + era) * 146097)
    with (yearStart Y + (monthStart mp + k)) by ring.
  rewrite (yearOfEra_inv Y (monthStart mp + k) HY) by lia.
  replace (yearStart Y + (monthStart mp + k) - yearStart Y)
    with (monthStart mp + k) by ring.
  rewrite (monthOfYear_inv mp k Hmp Hk Hmonth).
  fold (monthOf mp). f_equal. ring.
Qed.

Lemma daysInMonth_shifted y m Y :
  1 <= m <= 12 -> 0 <= Y <= 399 ->
  Y = (if m <=? 2 then y - 1 else y) - (if m <=? 2 then y - 1 else y) / 400 * 400 ->
  monthOf ((m + 9) mod 12) = m
  /\ 0 <= (m + 9) mod 12 <= 11
  /\ monthStart ((m + 9) mod 12) + daysInMonth y m
     <= monthStart ((m + 9) mod 12 + 1)
  /\ monthStart ((m + 9) mod 12) + daysInMonth y m <= yearLength Y
  /\ (m <> 2 ->
      daysInMonth y m = monthStart ((m + 9) mod 12 + 1) - monthStart ((m + 9) mod 12))
  /\ (m = 2 -> monthStart 11 + daysInMonth y m = yearLength Y).
Proof.
  intros Hm HY HYeq. pose proof (yearLength_bounds Y HY) as Hlen.
  month_cases m Hm; revert HYeq; eval_tests; intros HYeq;
    unfold monthOf, daysInMonth, monthStart; eval_tests;
    repeat split;
    try reflexivity;
    try match goal with
        | |- (_ = _) -> _ => intros Hc; try discriminate Hc
        | |- (_ <> _) -> _ => intros Hc; try (exfalso; apply Hc; reflexivity)
        end;
    first [ Z.div_mod_to_equations; lia
          | destruct (isLeapYear y); Z.div_mod_to_equations; lia
          | rewrite HYeq, yearLength_leap; destruct (isLeapYear y);
            Z.div_mod_to_equations; lia ].
Qed.

(** Every day number is a valid date, and the date maps back to it. *)
Lemma civilFromDays_valid z y m d :
  civilFromDays z = (y, m, d) ->
  1 <= m <= 12 /\ 1 <= d <= daysInMonth y m /\ daysFromCivil y m d = z.
Proof.
  unfold civilFromDays.
  set (era := (z + 719468) / 146097).
  set (doe := z + 719468 - era * 146097).
  assert (Hdoe : 0 <= doe < 146097)
    by (unfold doe, era; Z.div_mod_to_equations; lia).
  destruct (yearOfEra_spec doe Hdoe) as (HY & Hdoy).
  set (Y := yearOfEra doe) in *.
  set (doy := doe - yearStart Y) in *.
  pose proof (yearLength_bounds Y HY) as Hlen.
  assert (Hdoy' : 0 <= doy <= 365) by lia.
  destruct (monthOfYear_spec doy Hdoy') as (Hmp & Hms).
  set (mp := (5 * doy + 2) / 153) in *.
  fold (monthOf mp). intros Heq.
  assert (Hm : m = monthOf mp) by congruence.
  assert (Hd : d = doy - monthStart mp + 1) by congruence.
  assert (Hy : y = if monthOf mp <=? 2 then Y + era * 400 + 1 else Y + era * 400)
    by congruence.
  clear Heq.
  assert (Hmrange : 1 <= m <= 12 /\ (m + 9) mod 12 = mp).
  { rewrite Hm. unfold monthOf.
    destruct (Z.ltb_spec mp 10); Z.div_mod_to_equations; lia. }
  destruct Hmrange as [Hm1 Hmp1].
  assert (Hys : (if m <=? 2 then y - 1 else y) = Y + era * 400).
  { rewrite Hy, <- Hm. destruct (m <=? 2); ring. }
  assert (HYeq : Y = (if m <=? 2 then y - 1 else y)
                     - (if m <=? 2 then y - 1 else y) / 400 * 400).
  { rewrite Hys, Z.div_add, Z.div_small by lia. ring. }
  destruct (daysInMonth_shifted y m Y Hm1 HY HYeq)
    as (_ & _ & _ & _ & Hother & Hfeb).
  rewrite Hmp1 in Hother.
  split; [exact Hm1|]. split.
  - destruct (Z.eq_dec m 2) as [E|E].
    + specialize (Hfeb E).
      assert (Hmp11 : mp = 11) by (rewrite <- Hmp1, E; reflexivity).
      clearbody mp. rewrite Hmp11 in Hd, Hms. lia.
    + specialize (Hother E). lia.
  - rewrite (daysFromCivil_shifted y m d era Y HY Hys), Hmp1, Hd.
    unfold doy, doe. ring.
Qed.

(** A valid date maps to a day and back. *)
Lemma civil_roundtrip y m d :
  1 <= m <= 12 -> 1 <= d <= daysInMonth y m ->
  civilFromDays (daysFromCivil y m d) = (y, m, d).
Proof.
  intros Hm Hd.
  set (ys := if m <=? 2 then y - 1 else y).
  set (era := ys / 400). set (Y := ys - era * 400).
  assert (HY : 0 <= Y <= 399) by (unfold Y, era; apply era_split).
  assert (Hys : (if m <=? 2 then y - 1 else y) = Y + era * 400)
    by (unfold Y; fold ys; ring).
  destruct (daysInMonth_shifted y m Y Hm HY eq_refl)
    as (Hmonth & Hmp & Hin & Hlen & _ & _).
  rewrite (daysFromCivil_shifted y m d era Y HY Hys).
  replace (monthStart ((m + 9) mod 12) + d - 1)
    with (monthStart ((m + 9) mod 12) + (d - 1)) by ring.
  rewrite civilFromDays_shifted by lia.
  rewrite Hmonth. f_equal; [f_equal|ring].
  fold ys in Hys. unfold ys in *. destruct (m <=? 2); lia.
Qed.

(** Time values and days. *)
Lemma Day_bounds t : Day t * msPerDay <= t < (Day t + 1) * msPerDay.
Proof.
  unfold Day, msPerDay.
  pose proof (Z.div_mod t 86400000). pose proof (Z.mod_pos_bound t 86400000).
  lia.
Qed.

Lemma Day_MakeDate n : Day (MakeDate n 0) = n.
Proof.
  unfold Day, MakeDate, msPerDay. rewrite Z.add_0_r. apply Z.div_mul. lia.
Qed.

Lemma TimeWithinDay_MakeDate n : TimeWithinDay (MakeDate n 0) = 0.
Proof.
  unfold TimeWithinDay, MakeDate, msPerDay. rewrite Z.add_0_r.
  apply Z.mod_mul. lia.
Qed.

Lemma MakeDate_lt n t : Day t < n -> t < MakeDate n 0.
Proof.
  intros Hlt. pose proof (Day_bounds t). unfold MakeDate, msPerDay in *. lia.
Qed.

Lemma MakeDate_le n t : MakeDate n 0 <= t -> n <= Day t.
Proof.
  intros Hle. pose proof (Day_bounds t). unfold MakeDate, msPerDay in *. nia.
Qed.

Lemma MakeDay_same_year y m date :
  1 <= m <= 12 -> MakeDay y (m - 1) date = daysFromCivil y m 1 + date - 1.
Proof.
  intros Hm. unfold MakeDay.
  rewrite Z.div_small, Z.mod_small by lia.
  now replace (y + 0) with y by ring; replace (m - 1 + 1) with m by ring.
Qed.

(** Month index [m + 1] (0-based) names the month after next. *)
Lemma MakeDay_two_ahead y m date :
  1 <= m <= 12 ->
  MakeDay y (m + 1) date
  = daysFromCivil (fst (nextMonth (fst (nextMonth y m)) (snd (nextMonth y m))))
                  (snd (nextMonth (fst (nextMonth y m)) (snd (nextMonth y m)))) 1
    + date - 1.
Proof.
  intros Hm. unfold MakeDay, nextMonth.
  assert (Hcases : m <= 10 \/ m = 11 \/ m = 12) by lia.
  destruct Hcases as [Hlo | [-> | ->]]; [|reflexivity|reflexivity].
  rewrite Z.div_small, Z.mod_small by lia.
  destruct (Z.eqb_spec m 12) as [|_]; [lia|]. cbn [fst snd].
  destruct (Z.eqb_spec (m + 1) 12) as [|_]; [lia|]. cbn [fst snd].
  now replace (y + 0) with y by ring; replace (m + 1 + 1) with (m + 1 + 1) by ring.
Qed.

Lemma nextMonth_range y m :
  1 <= m <= 12 -> 1 <= snd (nextMonth y m) <= 12.
Proof. unfold nextMonth. destruct (Z.eqb_spec m 12); simpl; lia. Qed.

Lemma nextMonth_index y m :
  1 <= m <= 12 ->
  fst (nextMonth y m) * 12 + (snd (nextMonth y m) - 1) = y * 12 + (m - 1) + 1.
Proof. unfold nextMonth. destruct (Z.eqb_spec m 12); simpl; lia. Qed.

Lemma civil_of_MakeDate y m d :
  1 <= m <= 12 -> 1 <= d <= daysInMonth y m ->
  getFullYear (MakeDate (daysFromCivil y m d) 0) = y
  /\ getMonth (MakeDate (daysFromCivil y m d) 0) = m - 1
  /\ getDate (MakeDate (daysFromCivil y m d) 0) = d.
Proof.
  intros Hm Hd. unfold getFullYear, getMonth, getDate.
  now rewrite Day_MakeDate, civil_roundtrip.
Qed.

(** [addMonths] by one month from local midnight of a valid date. *)
Lemma addMonths_one y m d :
  1 <= m <= 12 -> 1 <= d <= daysInMonth y m ->
  addMonths (MakeDate (daysFromCivil y m d) 0) 1
  = MakeDate (daysFromCivil
                (fst (nextMonth y m)) (snd (nextMonth y m))
                (Z.min d (daysInMonth (fst (nextMonth y m)) (snd (nextMonth y m)))))
             0.
Proof.
  intros Hm Hd.
  destruct (civil_of_MakeDate y m d Hm Hd) as (Hy & Hmo & Hda).
  pose proof (nextMonth_range y m Hm) as Hm1.
  set (y1 := fst (nextMonth y m)) in *. set (m1 := snd (nextMonth y m)) in *.
  pose proof (daysInMonth_bounds y1 m1) as Hb.
  unfold addMonths. change (1 =? 0) with false. cbv iota.
  unfold setMonth, setFullYear. rewrite Hy, Hmo, Hda, TimeWithinDay_MakeDate.
  replace (m - 1 + 1 + 1) with (m + 1) by ring.
  rewrite (MakeDay_two_ahead y m 0 Hm). fold y1 m1.
  rewrite (nextMonth_start y1 m1 Hm1).
  replace (daysFromCivil y1 m1 1 + daysInMonth y1 m1 + 0 - 1)
    with (daysFromCivil y1 m1 (daysInMonth y1 m1))
    by (rewrite (daysFromCivil_day y1 m1 (daysInMonth y1 m1)); ring).
  assert (Hlast : 1 <= daysInMonth y1 m1 <= daysInMonth y1 m1) by lia.
  destruct (civil_of_MakeDate y1 m1 _ Hm1 Hlast) as (Hy1 & Hmo1 & Hda1).
  rewrite Hy1, Hmo1, Hda1.
  destruct (Z.geb_spec d (daysInMonth y1 m1)) as [Hge|Hlt].
  - now rewrite Z.min_r by lia.
  - rewrite Z.min_l by lia. rewrite (MakeDay_same_year y1 m1 d Hm1).
    now rewrite <- daysFromCivil_day.
Qed.

(** A date of the earlier years 0..99 is read 1900 years later. *)
Lemma daysFromCivil_1900 y m :
  1 <= m <= 12 -> daysFromCivil y m 31 < daysFromCivil (1900 + y) m 1.
Proof.
  intros Hm. unfold daysFromCivil, yearStart, monthStart.
  destruct (m <=? 2); Z.div_mod_to_equations; lia.
Qed.

Lemma monthIndex_MakeDate y m d :
  1 <= m <= 12 -> 1 <= d <= daysInMonth y m ->
  monthIndex (MakeDate (daysFromCivil y m d) 0) = y * 12 + (m - 1).
Proof.
  intros Hm Hd. unfold monthIndex.
  destruct (civil_of_MakeDate y m d Hm Hd) as (-> & -> & _). reflexivity.
Qed.

(** The occurrence of a day in the month of [now] lies in that month. *)
Lemma occurrenceThisMonth_some now day occ :
  occurrenceThisMonth now day = Some occ ->
  monthIndex occ = monthIndex now /\ getDate occ = day /\ TimeWithinDay occ = 0.
Proof.
  unfold occurrenceThisMonth, monthIndex at 2, getFullYear, getMonth.
  destruct (civilFromDays (Day now)) as [[y m] d] eqn:Ec.
  destruct (civilFromDays_valid _ _ _ _ Ec) as (Hm & _ & _).
  destruct (Z.leb_spec 1 day); [|discriminate].
  destruct (Z.leb_spec day (daysInMonth y m)); [|discriminate].
  simpl. intros [= <-].
  split; [apply monthIndex_MakeDate; lia|].
  split; [apply civil_of_MakeDate; lia|apply TimeWithinDay_MakeDate].
Qed.

End JsDateFacts.

(** ** The next expected date *)

Module NextExpectedFacts.
Import JsDate JsDateFacts Dashboard.

Local Open Scope Z_scope.

(** The date computed for a day 1..31 is after [now].  Unless [now] lies
    in the years 0..99, it is the day's occurrence in the month of [now]
    when the month has that day and its midnight is still to come; it is
    in the following month otherwise: on the same day (or on the last
    day of a shorter month) when the occurrence is past, and as many days
    into the month as the day exceeds the length of the month of [now]
    when that month has no such day. *)
Lemma nextExpectedDate_spec now day :
  1 <= day <= 31 ->
  now < nextExpectedDate now day
  /\ TimeWithinDay (nextExpectedDate now day) = 0
  /\ (getFullYear now < 0 \/ 99 < getFullYear now ->
      match occurrenceThisMonth now day with
      | Some occ =>
          if now <? occ then nextExpectedDate now day = occ
          else monthIndex (nextExpectedDate now day) = monthIndex now + 1
               /\ getDate (nextExpectedDate now day)
                  = Z.min day (daysInNextMonth now)
      | None =>
          monthIndex (nextExpectedDate now day) = monthIndex now + 1
          /\ 1 <= getDate (nextExpectedDate now day) <= 3
      end).
Proof.
  intros Hday.
  destruct (civilFromDays (Day now)) as [[y m] d] eqn:Ec.
  assert (HY : getFullYear now = y) by (unfold getFullYear; now rewrite Ec).
  assert (HM : getMonth now = m - 1) by (unfold getMonth; now rewrite Ec).
  assert (HMI : monthIndex now = y * 12 + (m - 1))
    by (unfold monthIndex; now rewrite HY, HM).
  unfold nextExpectedDate, occurrenceThisMonth, daysInNextMonth, newDate.
  rewrite Ec, HY, HM, HMI.
  destruct (civilFromDays_valid _ _ _ _ Ec) as (Hm & Hd & HD).
  pose proof (daysInMonth_bounds y m) as Hb.
  pose proof (nextMonth_range y m Hm) as Hm1.
  pose proof (nextMonth_start y m Hm) as Hstart.
  pose proof (nextMonth_index y m Hm) as Hidx.
  set (y1 := fst (nextMonth y m)) in *. set (m1 := snd (nextMonth y m)) in *.
  pose proof (daysInMonth_bounds y1 m1) as Hb1.
  pose proof (daysFromCivil_day y m d) as Hlin.
  destruct ((0 <=? y) && (y <=? 99)) eqn:Equirk.
  - (* a year in 0..99 *)
    apply andb_true_iff in Equirk. destruct Equirk as [Hy0 Hy99].
    apply Z.leb_le in Hy0, Hy99.
    rewrite (MakeDay_same_year (1900 + y) m day Hm).
    pose proof (daysFromCivil_1900 y m Hm) as Hfar.
    pose proof (daysFromCivil_day y m 31) as Hlin31.
    assert (Hlt : now < MakeDate (daysFromCivil (1900 + y) m 1 + day - 1) 0)
      by (apply MakeDate_lt; lia).
    destruct (Z.leb_spec (MakeDate (daysFromCivil (1900 + y) m 1 + day - 1) 0) now);
      [lia|].
    split; [exact Hlt|]. split; [apply TimeWithinDay_MakeDate|]. lia.
  - (* the year is taken as it is *)
    rewrite (MakeDay_same_year y m day Hm), <- (daysFromCivil_day y m day).
    destruct (Z.leb_spec (MakeDate (daysFromCivil y m day) 0) now) as [Hpast|Hfuture].
    + (* this month's occurrence is past: one month is added *)
      pose proof (MakeDate_le _ _ Hpast) as HleD.
      pose proof (daysFromCivil_day y m day) as Hlin'.
      assert (Hvalid : 1 <= day <= daysInMonth y m) by lia.
      rewrite (addMonths_one y m day Hm Hvalid). fold y1 m1.
      assert (Hmin : 1 <= Z.min day (daysInMonth y1 m1) <= daysInMonth y1 m1) by lia.
      pose proof (daysFromCivil_day y1 m1 (Z.min day (daysInMonth y1 m1))) as Hlin1.
      split; [apply MakeDate_lt; lia|].
      split; [apply TimeWithinDay_MakeDate|]. intros _.
      destruct (Z.leb_spec 1 day); [|lia].
      destruct (Z.leb_spec day (daysInMonth y m)); [|lia]. cbn [andb].
      destruct (Z.ltb_spec now (MakeDate (daysFromCivil y m day) 0)); [lia|].
      split; [rewrite (monthIndex_MakeDate y1 m1 _ Hm1 Hmin); lia|].
      apply (civil_of_MakeDate y1 m1 _ Hm1 Hmin).
    + split; [exact Hfuture|]. split; [apply TimeWithinDay_MakeDate|]. intros _.
      destruct (Z.leb_spec 1 day); [|lia]. cbn [andb].
      destruct (Z.leb_spec day (daysInMonth y m)) as [Hin|Hover].
      * destruct (Z.ltb_spec now (MakeDate (daysFromCivil y m day) 0)); [|lia].
        reflexivity.
      * (* the month of [now] is too short: the date carries over *)
        assert (Hcarry : daysFromCivil y m day
                         = daysFromCivil y1 m1 (day - daysInMonth y m)).
        { rewrite (daysFromCivil_day y m day),
            (daysFromCivil_day y1 m1 (day - daysInMonth y m)). lia. }
        assert (Hvalid : 1 <= day - daysInMonth y m <= daysInMonth y1 m1) by lia.
        rewrite Hcarry.
        split; [rewrite (monthIndex_MakeDate y1 m1 _ Hm1 Hvalid); lia|].
        destruct (civil_of_MakeDate y1 m1 _ Hm1 Hvalid) as (_ & _ & ->). lia.
Qed.

Lemma getDate_range t : 1 <= getDate t <= 31.
Proof.
  unfold getDate. destruct (civilFromDays (Day t)) as [[y m] d] eqn:Ec.
  destruct (civilFromDays_valid _ _ _ _ Ec) as (_ & Hd & _).
  pose proof (daysInMonth_bounds y m). simpl. lia.
Qed.

(** The day that represents the kept cluster is a day of month. *)
Lemma selectedGroup_day parseDate invs day group :
  selectedGroup parseDate invs = Some (day, group) -> 1 <= day <= 31.
Proof.
  intros Hs. apply ClusterFacts.selectedGroup_cluster in Hs.
  destruct Hs as (members & Hin & _).
  unfold groupByDay in Hin.
  destruct (ClusterFacts.groupByDay_loop_keys parseDate _ [] _ Hin)
    as [(inv & _ & Hk)|(e' & [] & _)].
  cbn [fst] in Hk. rewrite Hk. apply getDate_range.
Qed.

End NextExpectedFacts.


(** ** The recurring-expense analyzer: the stated properties *)

Module RecurringClaims.
Import JsString JsStringFacts JsObject JsArrayFacts.
Import Dashboard GroupingFacts AnalyzerFacts ClusterFacts.
Import JsDate JsDateFacts NextExpectedFacts.

Local Open Scope string_scope.
Local Open Scope Z_scope.

Lemma sample_run :
  analyzeRecurringExpenses JsDate.isoLocalMidnight sampleNow mixedRecords
  = Returns [dewaCandidate].
Proof. vm_compute. reflexivity. Qed.

(** C9. Records with a null or empty vendor, a null or empty date, or a
    null or zero amount are ignored: the analyzer returns (or throws) on
    the whole record set exactly what it does on the sub-list of the
    complete records. *)
Theorem incomplete_records_are_ignored
        (parseDate : string -> Z) (now : Z) (invoices : list Invoice.t) :
  analyzeRecurringExpenses parseDate now invoices
  = analyzeRecurringExpenses parseDate now (filter isComplete invoices).
Proof.
  unfold analyzeRecurringExpenses, analyzeWith.
  rewrite (filter_ext isComplete isUsable)
    by (intros inv; symmetry; apply isUsable_isComplete).
  now rewrite collect_loop_filter.
Qed.



(** The label is the only field that the labelling function reaches. *)
Lemma analyzeVendor_withoutType parseDate now f g entry :
  option_map withoutType (analyzeVendor parseDate f now entry)
  = option_map withoutType (analyzeVendor parseDate g now entry).
Proof.
  destruct entry as [vendor invs]. unfold analyzeVendor.
  destruct (Z.of_nat (List.length invs) <? 2); [reflexivity|].
  destruct (isExcluded _); [reflexivity|].
  destruct (validGroups _) as [|[avgDay group] others]; [reflexivity|].
  destruct (isMonthlyConsistent parseDate _); [|reflexivity].
  unfold withoutType.
  cbn [negb option_map RecurringExpense.vendor
       RecurringExpense.avgAmount RecurringExpense.dayOfMonth
       RecurringExpense.frequency RecurringExpense.lastDate
       RecurringExpense.category RecurringExpense.nextExpected].
  reflexivity.
Qed.

Lemma push_loop_map {E C D} (h : C -> D) (f : E -> option C) (l : list E) :
  forall acc,
    map h (fold_left (fun acc e => pushSome acc (f e)) l acc)
    = fold_left (fun acc e => pushSome acc (option_map h (f e))) l (map h acc).
Proof.
  induction l as [|e l IH]; intros acc; simpl; [reflexivity|].
  rewrite IH. f_equal. destruct (f e); simpl; [|reflexivity].
  now rewrite map_app.
Qed.

Lemma push_loop_ext {E C} (f g : E -> option C) (l : list E) :
  (forall e, f e = g e) ->
  forall acc,
    fold_left (fun acc e => pushSome acc (f e)) l acc
    = fold_left (fun acc e => pushSome acc (g e)) l acc.
Proof.
  intros Hfg. induction l as [|e l IH]; intros acc; simpl; [reflexivity|].
  now rewrite Hfg, IH.
Qed.

(** C6. Classification is label-only: whatever function takes the place
    of [getExpenseType], the analyzer returns the same candidates, in the
    same order and with the same fields, up to the type label (and throws
    in the same cases); so the emitted vendors are the same. *)
Theorem classification_is_label_only
        (parseDate : string -> Z) (now : Z) (invoices : list Invoice.t)
        (classify : string -> option string -> option string) :
  mapO (map withoutType) (analyzeWith parseDate classify now invoices)
  = mapO (map withoutType) (analyzeRecurringExpenses parseDate now invoices)
  /\ mapO (map RecurringExpense.vendor) (analyzeWith parseDate classify now invoices)
     = mapO (map RecurringExpense.vendor)
            (analyzeRecurringExpenses parseDate now invoices).
Proof.
  assert (Herased :
            mapO (map withoutType) (analyzeWith parseDate classify now invoices)
            = mapO (map withoutType)
                   (analyzeRecurringExpenses parseDate now invoices)).
  { unfold analyzeRecurringExpenses, analyzeWith.
    destruct (forEachO collect invoices []) as [o|e]; simpl; [|reflexivity].
    f_equal.
    rewrite <- !(sort_map withoutType byNextExpected byNextExpected)
      by reflexivity.
    f_equal. rewrite !push_loop_map. simpl.
    apply push_loop_ext. intros entry. apply analyzeVendor_withoutType. }
  split; [exact Herased|].
  destruct (analyzeWith parseDate classify now invoices) as [out1|e1];
    destruct (analyzeRecurringExpenses parseDate now invoices) as [out2|e2];
    simpl in *; inversion Herased as [Hmap]; subst; try reflexivity.
  f_equal.
  apply (f_equal (map RecurringExpense.vendor)) in Hmap.
  rewrite !map_map in Hmap. exact Hmap.
Qed.

(** Exclusion depends on the normalized name alone. *)
Lemma isExcluded_vendorKey name :
  isExcluded name
  = JsArray.some (fun k => includes (vendorKey name) k) EXCLUDE_KEYWORDS.
Proof.
  unfold isExcluded, vendorKey. symmetry. now apply some_includes_trim.
Qed.


(** C1. When the cluster selected for a vendor (its largest day-of-month
    group with at least 2 records, in date order) has two adjacent dates
    less than 25 or more than 38 days apart, the analyzer returns no
    candidate for that vendor; this covers a cluster of two records that
    are six weeks apart. *)
Theorem gap_out_of_range_disqualifies_vendor
        (parseDate : string -> Z) (now : Z) (invoices : list Invoice.t)
        (out : list RecurringExpense.t)
        (vendor : string) (day : Z) (group : list Invoice.t) :
  analyzeRecurringExpenses parseDate now invoices = Returns out ->
  selectedGroup parseDate (recordsOf vendor invoices) = Some (day, group) ->
  hasGapOutOfRange parseDate group ->
  forall c, In c out -> vendorKey (RecurringExpense.vendor c) <> vendor.
Proof.
  intros Hrun Hsel Hgap c Hin Hkey.
  pose proof (analyzeWith_vendor _ _ _ _ _ _ Hrun Hin) as Hc.
  rewrite Hkey in Hc.
  rewrite (analyzeVendor_inconsistent parseDate getExpenseType now vendor
             _ day group Hsel (hasGapOutOfRange_inconsistent _ _ Hgap)) in Hc.
  discriminate.
Qed.

Lemma gap_out_of_range_disqualifies_vendor_witness :
  vendorKey (RecurringExpense.vendor dewaCandidate) <> "acme".
Proof.
  apply (gap_out_of_range_disqualifies_vendor
           JsDate.isoLocalMidnight sampleNow mixedRecords [dewaCandidate]
           "acme" 15
           [mkInvoice 3 "Acme" 70 "2024-01-15"; mkInvoice 9 "acme" 70 "2024-03-15"]).
  - exact sample_run.
  - vm_compute. reflexivity.
  - exists 0%nat, (mkInvoice 3 "Acme" 70 "2024-01-15"),
      (mkInvoice 9 "acme" 70 "2024-03-15").
    split; [reflexivity|]. split; [reflexivity|]. right. vm_compute. reflexivity.
  - now left.
Defined.

(** C2. No candidate carries an excluded name: the vendor of every
    returned candidate contains no exclusion keyword in any letter case,
    no usable record filed under that vendor has a name that contains
    one, and the vendor has at least 2 usable records.  So a vendor whose
    name contains "traffic" or "visa" is never returned, however regular
    its records, and neither is a vendor with fewer than 2 records. *)
Theorem excluded_or_single_vendors_never_returned
        (parseDate : string -> Z) (now : Z) (invoices : list Invoice.t)
        (out : list RecurringExpense.t) (c : RecurringExpense.t) :
  analyzeRecurringExpenses parseDate now invoices = Returns out ->
  In c out ->
  isExcluded (RecurringExpense.vendor c) = false
  /\ (forall keyword,
         In keyword EXCLUDE_KEYWORDS ->
         includes (toLowerCase (RecurringExpense.vendor c)) keyword = false)
  /\ (forall inv name,
         In inv invoices -> isUsable inv = true ->
         Invoice.vendor inv = Some name ->
         vendorKey name = vendorKey (RecurringExpense.vendor c) ->
         isExcluded name = false)
  /\ (2 <= List.length (recordsOf (vendorKey (RecurringExpense.vendor c)) invoices))%nat.
Proof.
  intros Hrun Hin.
  pose proof (analyzeWith_vendor _ _ _ _ _ _ Hrun Hin) as Hc.
  apply analyzeVendor_some in Hc. destruct Hc as (Hlen & Hex & _).
  split; [exact Hex|]. split.
  { intros keyword Hk. unfold isExcluded, JsArray.some in Hex.
    destruct (includes _ keyword) eqn:Ei; [|reflexivity].
    assert (existsb (fun k => includes (toLowerCase (RecurringExpense.vendor c)) k)
                    EXCLUDE_KEYWORDS = true)
      by (apply existsb_exists; eauto).
    congruence. }
  split; [|lia].
  intros inv name _ _ _ Hkey.
  rewrite isExcluded_vendorKey, Hkey, <- isExcluded_vendorKey. exact Hex.
Qed.

Lemma excluded_or_single_vendors_never_returned_witness :
  isExcluded (RecurringExpense.vendor dewaCandidate) = false
  /\ isExcluded "Visa Centre" = true.
Proof.
  split; [|reflexivity].
  exact (proj1 (excluded_or_single_vendors_never_returned
                  JsDate.isoLocalMidnight sampleNow mixedRecords [dewaCandidate]
                  dewaCandidate sample_run (or_introl eq_refl))).
Defined.




Lemma three_months_run :
  analyzeRecurringExpenses JsDate.isoLocalMidnight sampleNow threeMonths
  = Returns [dewaCandidate].
Proof. vm_compute. reflexivity. Qed.



(** C4. The [nextExpected] of every returned candidate is strictly after
    [now].  It is local midnight of the candidate's day of month in the
    month of [now] when that month has the day and that midnight is still
    to come; otherwise it is rolled forward into the following month: to
    the same day, or the last day of a shorter month, when the occurrence
    is past, and 1..3 days into it when the month of [now] has no such
    day.  The description by months is for a [now] outside the years
    0..99, which [new Date(year, ...)] reads as 1900..1999. *)
Theorem next_expected_is_after_now
        (parseDate : string -> Z) (now : Z) (invoices : list Invoice.t)
        (out : list RecurringExpense.t) (c : RecurringExpense.t) :
  analyzeRecurringExpenses parseDate now invoices = Returns out ->
  In c out ->
  now < RecurringExpense.nextExpected c
  /\ 1 <= RecurringExpense.dayOfMonth c <= 31
  /\ TimeWithinDay (RecurringExpense.nextExpected c) = 0
  /\ (getFullYear now < 0 \/ 99 < getFullYear now ->
      match occurrenceThisMonth now (RecurringExpense.dayOfMonth c) with
      | Some occurrence =>
          monthIndex occurrence = monthIndex now
          /\ getDate occurrence = RecurringExpense.dayOfMonth c
          /\ if now <? occurrence
             then RecurringExpense.nextExpected c = occurrence
             else monthIndex (RecurringExpense.nextExpected c) = monthIndex now + 1
                  /\ getDate (RecurringExpense.nextExpected c)
                     = Z.min (RecurringExpense.dayOfMonth c) (daysInNextMonth now)
      | None =>
          monthIndex (RecurringExpense.nextExpected c) = monthIndex now + 1
          /\ 1 <= getDate (RecurringExpense.nextExpected c) <= 3
      end).
Proof.
  intros Hrun Hin.
  pose proof (analyzeWith_vendor _ _ _ _ _ _ Hrun Hin) as Hc.
  apply analyzeVendor_some in Hc.
  destruct Hc as (_ & _ & _ & day & group & Hsel & _ & _ & Hday & _ & _ & Hnext).
  pose proof (selectedGroup_day _ _ _ _ Hsel) as Hrange.
  rewrite Hday, Hnext.
  destruct (nextExpectedDate_spec now day Hrange) as (Hafter & Hmid & Hmonths).
  split; [exact Hafter|]. split; [exact Hrange|]. split; [exact Hmid|].
  intros Hyear. specialize (Hmonths Hyear).
  destruct (occurrenceThisMonth now day) as [occurrence|] eqn:Eo.
  - destruct (occurrenceThisMonth_some _ _ _ Eo) as (Hidx & Hdate & _).
    split; [exact Hidx|]. split; [exact Hdate|exact Hmonths].
  - exact Hmonths.
Qed.

Lemma next_expected_is_after_now_witness :
  sampleNow < RecurringExpense.nextExpected dewaCandidate
  /\ RecurringExpense.nextExpected dewaCandidate
     = MakeDate (daysFromCivil 2024 5 1) 0.
Proof.
  pose proof (next_expected_is_after_now
                isoLocalMidnight sampleNow mixedRecords [dewaCandidate]
                dewaCandidate sample_run (or_introl eq_refl)) as H.
  destruct H as (Hafter & _ & _ & Hmonths).
  split; [exact Hafter|].
  assert (Hyear : getFullYear sampleNow < 0 \/ 99 < getFullYear sampleNow)
    by (right; vm_compute; reflexivity).
  specialize (Hmonths Hyear). vm_compute. reflexivity.
Defined.

End RecurringClaims.

(** ** The VAT Resolver: the stated property *)

Module VatClaims.
Import VatModel.

Local Open Scope Q_scope.

Lemma round2_comp x y : x == y -> round2 x == round2 y.
Proof.
  intros Hxy. unfold round2.
  assert (Hf : Qfloor (x * 100 + (1 # 2)) = Qfloor (y * 100 + (1 # 2)))
    by (apply Qfloor_comp; now rewrite Hxy).
  now rewrite Hf.
Qed.

(** [round2] is the nearest multiple of 0.01, the half going up. *)
Lemma round2_close x : x - (1 # 200) < round2 x <= x + (1 # 200).
Proof.
  unfold round2.
  pose proof (Qfloor_le (x * 100 + (1 # 2))) as Hle.
  pose proof (Qlt_floor (x * 100 + (1 # 2))) as Hlt.
  rewrite inject_Z_plus in Hlt.
  set (f := inject_Z (Qfloor (x * 100 + (1 # 2)))) in *.
  change (inject_Z 1) with 1 in Hlt.
  assert (Hdiv : f / 100 == f * (1 # 100)) by (unfold Qdiv; reflexivity).
  rewrite Hdiv. split; lra.
Qed.

(** C7. Resolving a record that holds a gross amount [G >= 0], with
    [vat_inclusive] true and no tax amount yet, gives the net amount
    [round(G / 1.05, 2)] as [amount] and [G - amount] as [tax_amount]
    (exactly, hence within 0.01).  In the scenario, answering
    [vat_inclusive: true, amount: 1000] gives amount 952.38, tax 47.62
    and status ok. *)
Theorem vat_inclusive_resolution (G : Q) (r : DocumentRecord) :
  0 <= G ->
  amount r = Some G ->
  tax_amount r = None ->
  vat_inclusive r = Some true ->
  (exists net tax,
      amount (resolveVat defaultRate r) = Some net
      /\ tax_amount (resolveVat defaultRate r) = Some tax
      /\ net == round2 (G / 1.05)
      /\ tax == G - net
      /\ Qabs (tax - (G - net)) <= 0.01)
  /\ (exists net tax,
         amount (resolve defaultRate scenarioRecord scenarioAnswers) = Some net
         /\ tax_amount (resolve defaultRate scenarioRecord scenarioAnswers) = Some tax
         /\ net == 952.38 /\ tax == 47.62
         /\ status (resolve defaultRate scenarioRecord scenarioAnswers) = StatusOk
         /\ review_questions (resolve defaultRate scenarioRecord scenarioAnswers) = []).
Proof.
  intros _ Ha Ht Hv. split.
  - exists (netOfGross defaultRate G), (G - netOfGross defaultRate G).
    unfold resolveVat. rewrite Ha, Ht, Hv. cbn [amount tax_amount withVat].
    split; [reflexivity|]. split; [reflexivity|]. split.
    + unfold netOfGross. apply round2_comp.
      apply Qdiv_comp; reflexivity.
    + split; [reflexivity|].
      assert (Hz : G - netOfGross defaultRate G - (G - netOfGross defaultRate G) == 0)
        by ring.
      rewrite Hz. discriminate.
  - exists 952.38, 47.62. vm_compute. repeat split; discriminate.
Qed.

Lemma vat_inclusive_resolution_witness :
  exists net tax,
    amount (resolveVat defaultRate grossRecord) = Some net
    /\ tax_amount (resolveVat defaultRate grossRecord) = Some tax
    /\ net == round2 (1000 / 1.05)
    /\ tax == 1000 - net
    /\ Qabs (tax - (1000 - net)) <= 0.01.
Proof.
  refine (proj1 (vat_inclusive_resolution 1000 grossRecord _ eq_refl eq_refl eq_refl)).
  discriminate.
Defined.

End VatClaims.
